(** * pyams_elastic.client: the transactional Elasticsearch client

    A shallow embedding of [src/pyams_elastic/client.py].  Python values are
    an inductive type, dictionaries are stdpp finite maps, dictionaries that
    the code mutates in place live in a heap of references, the search engine
    is an abstract responder to the calls of the [elasticsearch] client
    library, and every method is a function in a state-and-exception monad
    over a world made of the heap, the engine, the log of engine calls and the
    queue of the current unit of work.

    The calls to [LOGGER.debug] change nothing of that world and are left
    out.  The construction of clients ([ElasticClientInfo.open],
    [ElasticClient.__init__]) and [query], which only builds an
    [ElasticQuery], are outside the embedding: a client is taken with its
    attributes set. *)

From stdpp Require Import gmap strings list fin_maps.

Set Warnings "-register-all".
Local Open Scope string_scope.
Local Open Scope list_scope.

(** ** Python values *)

Inductive pyval :=
  | PNone
  | PBool (b : bool)
  | PInt (z : Z)
  | PStr (s : string)
  | PList (l : list pyval)
  | PDict (d : gmap string pyval).

(** A Python [dict] with string keys. *)
Abbreviation dict := (gmap string pyval).

(** Truth value of a dictionary: [not d] holds exactly for the empty one. *)
Definition dict_truthy (d : dict) : bool := negb (bool_decide (d = ∅)).

(** Truth value of an object, as tested by [if], [not] and [or]. *)
Definition truthy (v : pyval) : bool :=
  match v with
  | PNone => false
  | PBool b => b
  | PInt z => negb (z =? 0)%Z
  | PStr s => negb (String.eqb s "")
  | PList l => match l with [] => false | _ => true end
  | PDict d => dict_truthy d
  end.

(** [x or y] *)
Definition py_or (x y : pyval) : pyval := if truthy x then x else y.

(** [d.update(new)]: the keys of [new] override those of [d]. *)
Definition dict_update (d new : dict) : dict := new ∪ d.

(** ** Exceptions *)

Inductive exn :=
  | NotFoundError
  | KeyError (key : string)
  | TypeError
  | ValueError
  | AttributeError
  | EngineError (name : string).

(** ** The search engine, seen from the client library *)

(** A connection handle, as returned by [Elasticsearch(...)]. *)
Definition Conn := nat.

(** The calls of the [elasticsearch] library that the client issues, with the
    keyword arguments they are given. *)
Inductive es_call :=
  | indices_exists (index : string)
  | indices_delete (index : string)
  | indices_create (index : string) (body : dict)
  | indices_get_mapping (index : string)
  | indices_put_mapping (index : string) (body : dict)
  | indices_flush (index : string) (force : bool)
  | indices_refresh (index : string)
  | es_index (index : string) (document : dict) (id : pyval) (pipeline : option pyval)
  | es_delete (index : string) (id : pyval)
  | es_get (index : string) (id : pyval)
  | es_close.

(** An engine answers a call with a value or an exception and moves to a new
    state.  The client is verified against every engine. *)
Record Engine := {
  eng_state : Type;
  respond : es_call → eng_state → eng_state * (exn + pyval)
}.

(** Calls that write a document or remove one. *)
Definition is_doc_mutation (c : es_call) : bool :=
  match c with
  | es_index _ _ _ _ | es_delete _ _ => true
  | _ => false
  end.

Definition is_put_mapping (c : es_call) : bool :=
  match c with indices_put_mapping _ _ => true | _ => false end.

Definition is_create_or_delete_index (c : es_call) : bool :=
  match c with
  | indices_create _ _ | indices_delete _ => true
  | _ => false
  end.

(** ** Module constants *)

Definition ANALYZER_SETTINGS : dict :=
  {[ "analysis" := PDict
     {[ "filter" := PDict
          {[ "snowball" := PDict
               {[ "type" := PStr "snowball"; "language" := PStr "English" ]} ]};
        "analyzer" := PDict
          {[ "lowercase" := PDict
               {[ "type" := PStr "custom";
                  "tokenizer" := PStr "standard";
                  "filter" := PList [PStr "lowercase"] ]};
             "email" := PDict
               {[ "type" := PStr "custom";
                  "tokenizer" := PStr "uax_url_email";
                  "filter" := PList [PStr "lowercase"] ]};
             "content" := PDict
               {[ "type" := PStr "custom";
                  "tokenizer" := PStr "standard";
                  "char_filter" := PList [PStr "html_strip"];
                  "filter" := PList [PStr "lowercase"; PStr "stop"; PStr "snowball"] ]} ]} ]} ]}.

(** [ANALYZER_SETTINGS.copy()] followed by [update]. *)
Definition CREATE_INDEX_SETTINGS : dict :=
  dict_update ANALYZER_SETTINGS
    {[ "index" := PDict {[ "number_of_shards" := PInt 2;
                           "number_of_replicas" := PInt 0 ]} ]}.

(** ** Client objects and their collaborators *)

(** The attributes of an [ElasticClient]: [es], [index] and
    [disable_indexing] are set by [__init__]; [use_transaction] is the
    attribute that [TransactionClient.__init__] stores. *)
Record ElasticClient := {
  es : Conn;
  index : string;
  disable_indexing : bool;
  use_transaction : bool
}.

(** A reference to a dictionary in the heap. *)
Definition loc := nat.

(** Modelled from the spec: the document codec contract, declared in
    [pyams_elastic.interfaces], which is not among the sources.  An indexable
    object projects, on demand, to a new dictionary holding its fields and
    the reserved keys. *)
Record Indexable := { document_fields : dict }.

(** A mapped class as [ensure_mapping] and [ensure_all_mappings] see it:
    whether [IElasticMapping.providedBy(cls)] holds, the result of
    [cls.elastic_mapping()], and the named [IElasticMappingExtension]
    adapters that [getAdapters((cls,), ...)] yields, in the order it yields
    them, each with the result of its [elastic_mapping()]. *)
Record MappedClass := {
  provides_IElasticMapping : bool;
  elastic_mapping : dict;
  mapping_extensions : list (string * dict)
}.

(** The argument of [get]: a list or tuple, or an object that may have an
    [id] attribute. *)
Inductive get_arg :=
  | GetSeq (items : list pyval)
  | GetObj (id_attr : option pyval).

(** Modelled from the spec: [DotDict], from [pyams_elastic.docdict], which is
    not among the sources: a dict-like accessor over the stored source. *)
Inductive DotDict := MkDotDict (source : pyval).

Definition dotdict_get (dd : DotDict) (key : string) : option pyval :=
  match dd with
  | MkDotDict (PDict d) => d !! key
  | MkDotDict _ => None
  end.

(** The arguments of a call to one of the two [@transactional] methods. *)
Inductive call_args :=
  | IndexArgs (id : pyval) (doc : loc)
  | DeleteArgs (id : pyval) (safe : bool).

(** A deferred operation: the client and the arguments the decorated method
    was called with. *)
Record Deferred := { d_client : ElasticClient; d_call : call_args }.

Section Client.
Context {E : Engine}.

(** ** The world and the monad *)

Record World := {
  heap : gmap loc dict;
  next_loc : loc;
  eng : eng_state E;
  trace : list (Conn * es_call);
  txn : option (list Deferred)
}.

Definition M (A : Type) : Type := World → World * (exn + A).

Definition ret {A} (a : A) : M A := λ w, (w, inr a).
Definition raise {A} (e : exn) : M A := λ w, (w, inl e).
Definition bind {A B} (m : M A) (k : A → M B) : M B :=
  λ w, match m w with
       | (w', inr a) => k a w'
       | (w', inl e) => (w', inl e)
       end.

(** [try: m except: h] *)
Definition try_except {A} (m : M A) (h : exn → M A) : M A :=
  λ w, match m w with
       | (w', inr a) => (w', inr a)
       | (w', inl e) => h e w'
       end.

Notation "x ← m ; k" := (bind m (λ x, k))
  (at level 20, m at level 100, k at level 200, only parsing).
Notation "m ;; k" := (bind m (λ _, k))
  (at level 100, k at level 200, right associativity, only parsing).

(** The engine's answer to the call [c] in the world [w]. *)
Definition answer (c : es_call) (w : World) : exn + pyval :=
  (respond E c (eng w)).2.

(** The world after the call [c] went through the connection [h]: the
    call is logged and the engine has moved on. *)
Definition after_request (h : Conn) (c : es_call) (w : World) : World :=
  {| heap := heap w; next_loc := next_loc w;
     eng := (respond E c (eng w)).1;
     trace := trace w ++ [(h, c)]; txn := txn w |}.

Definition es_request (h : Conn) (c : es_call) : M pyval :=
  λ w, (after_request h c w, answer c w).

(** *** Dictionaries in the heap *)

Definition alloc (d : dict) : M loc :=
  λ w, ({| heap := <[next_loc w := d]> (heap w); next_loc := S (next_loc w);
           eng := eng w; trace := trace w; txn := txn w |}, inr (next_loc w)).

Definition load (l : loc) : M dict := λ w, (w, inr (heap w !!! l)).

Definition store (l : loc) (d : dict) : M unit :=
  λ w, ({| heap := <[l := d]> (heap w); next_loc := next_loc w;
           eng := eng w; trace := trace w; txn := txn w |}, inr tt).

(** [doc.pop(key)] *)
Definition dict_pop (doc : loc) (key : string) : M pyval :=
  d ← load doc;
  match d !! key with
  | Some v => store doc (delete key d) ;; ret v
  | None => raise (KeyError key)
  end.

(** [v[key]] *)
Definition subscript (v : pyval) (key : string) : M pyval :=
  match v with
  | PDict d => match d !! key with
               | Some x => ret x
               | None => raise (KeyError key)
               end
  | _ => raise TypeError
  end.

(** [obj.elastic_document()] *)
Definition elastic_document (obj : Indexable) : M loc :=
  alloc (document_fields obj).

(** ** The unit of work *)

(** Modelled from the spec: the unit-of-work manager and the participant
    that [pyams_utils.transaction] registers with it, which are not among
    the sources.  The first deferral in a transaction registers the
    participant, later ones reuse it. *)
Definition register (d : Deferred) : M unit :=
  λ w, ({| heap := heap w; next_loc := next_loc w; eng := eng w;
           trace := trace w;
           txn := Some (match txn w with
                        | Some q => q ++ [d]
                        | None => [d]
                        end) |}, inr tt).

(** The operations queued in the current unit of work. *)
Definition pending (w : World) : list Deferred :=
  match txn w with Some q => q | None => [] end.

(** Modelled from the spec: the [@transactional] decorator of
    [pyams_utils.transaction].  With [use_transaction] the call is
    registered with the active unit of work, otherwise the method runs
    at once. *)
Definition transactional (func : ElasticClient → call_args → M unit)
    (self : ElasticClient) (args : call_args) : M unit :=
  if use_transaction self
  then register {| d_client := self; d_call := args |}
  else func self args.

(** ** ElasticClient *)

(** [close] (lines 137-139). *)
Definition close (self : ElasticClient) : M unit :=
  es_request (es self) es_close ;; ret tt.

(** [__enter__] (lines 141-142). *)
Definition __enter__ (self : ElasticClient) : Conn := es self.

(** [__exit__] (lines 144-145).  [exc] is the exception the block raised,
    if any; the method returns [None]. *)
Definition __exit__ (self : ElasticClient) (exc : option exn) : M unit :=
  es_request (es self) es_close ;; ret tt.

(** [with self as h: body(h)]: [__exit__] runs on every way out of the
    block; since it returns [None], an exception of the block is raised
    again after it. *)
Definition with_client {A} (self : ElasticClient) (body : Conn → M A) : M A :=
  λ w, match body (__enter__ self) w with
       | (w', inr a) => (__exit__ self None ;; ret a) w'
       | (w', inl e) => (__exit__ self (Some e) ;; raise e) w'
       end.

(** [ensure_index] (lines 147-157).  The answer of [indices.exists] is
    tested for truth twice; the body of the create call is
    [dict(settings=settings or CREATE_INDEX_SETTINGS)]. *)
Definition ensure_index (self : ElasticClient) (recreate : bool)
    (settings : pyval) : M unit :=
  exists_ ← es_request (es self) (indices_exists (index self));
  if recreate || negb (truthy exists_) then
    (if truthy exists_
     then es_request (es self) (indices_delete (index self)) ;; ret tt
     else ret tt) ;;
    es_request (es self)
      (indices_create (index self)
         {[ "settings" := py_or settings (PDict CREATE_INDEX_SETTINGS) ]}) ;;
    ret tt
  else ret tt.

(** [delete_index] (lines 159-163). *)
Definition delete_index (self : ElasticClient) : M unit :=
  es_request (es self) (indices_delete (index self)) ;; ret tt.

(** [get_mappings] (lines 165-170): [raw[self.index]['mappings']]. *)
Definition get_mappings (self : ElasticClient) : M pyval :=
  raw ← es_request (es self) (indices_get_mapping (index self));
  entry ← subscript raw (index self);
  subscript entry "mappings".

(** [ensure_mapping] (lines 172-184).  [dict(cls.elastic_mapping())] is a
    copy of the class's mapping. *)
Definition ensure_mapping (self : ElasticClient) (cls : MappedClass)
    (recreate : bool) : M unit :=
  let doc_mapping := elastic_mapping cls in
  mappings ← get_mappings self;
  if negb (truthy mappings) || recreate
  then es_request (es self) (indices_put_mapping (index self) doc_mapping) ;; ret tt
  else ret tt.

(** The body of the inner loop (lines 199-200):
    [cls_mapping.update(extension.elastic_mapping())]. *)
Definition apply_extension (cls_mapping : dict) (ext : string * dict) : dict :=
  dict_update cls_mapping (snd ext).

(** The body of the outer loop of [ensure_all_mappings] (lines 194-201): a
    class that does not provide [IElasticMapping] is skipped, and so is, with
    its extensions, one whose own mapping is empty. *)
Definition merge_class (doc_mapping : dict) (cls : MappedClass) : dict :=
  if negb (provides_IElasticMapping cls) then doc_mapping
  else
    let cls_mapping := elastic_mapping cls in
    if dict_truthy cls_mapping then
      let cls_mapping := foldl apply_extension cls_mapping (mapping_extensions cls) in
      dict_update doc_mapping cls_mapping
    else doc_mapping.

(** [ensure_all_mappings] (lines 186-204).  [registry] is
    [base_class._decl_class_registry.values()]. *)
Definition ensure_all_mappings (self : ElasticClient)
    (registry : list MappedClass) (recreate : bool) : M unit :=
  doc_mapping ← get_mappings self;
  if negb (truthy doc_mapping) || recreate then
    let doc_mapping := foldl merge_class ∅ registry in
    es_request (es self) (indices_put_mapping (index self) doc_mapping) ;; ret tt
  else ret tt.

(** What one class adds to the merged mapping. *)
Definition class_contribution (cls : MappedClass) : dict := merge_class ∅ cls.

(** The merge as the specification words it: every class that provides a
    mapping contributes its descriptor overridden by its extensions. *)
Definition spec_merge_class (doc_mapping : dict) (cls : MappedClass) : dict :=
  if provides_IElasticMapping cls
  then dict_update doc_mapping
         (foldl apply_extension (elastic_mapping cls) (mapping_extensions cls))
  else doc_mapping.

(** The keyword arguments built by [index_document]: [document] is the
    very dictionary passed as [doc], not a copy of it. *)
Record index_kwargs := {
  kw_index : string;
  kw_document : loc;
  kw_id : pyval;
  kw_pipeline : option pyval
}.

(** The call of [self.es.index] with [kwargs] (line 237): the library
    sends what the dictionary holds when it is called. *)
Definition es_index_request (h : Conn) (kwargs : index_kwargs) : M pyval :=
  document ← load (kw_document kwargs);
  es_request h (es_index (kw_index kwargs) document (kw_id kwargs) (kw_pipeline kwargs)).

(** The function that [@transactional] wraps into [index_document]
    (lines 226-237). *)
Definition index_document_func (self : ElasticClient) (id : pyval) (doc : loc)
    : M unit :=
  if disable_indexing self then ret tt
  else
    let kwargs := {| kw_index := index self; kw_document := doc;
                     kw_id := id; kw_pipeline := None |} in
    d ← load doc;
    kwargs ← (if bool_decide (is_Some (d !! "__pipeline__"))
              then p ← dict_pop doc "__pipeline__";
                   ret {| kw_index := kw_index kwargs;
                          kw_document := kw_document kwargs;
                          kw_id := kw_id kwargs;
                          kw_pipeline := Some p |}
              else ret kwargs);
    es_index_request (es self) kwargs ;; ret tt.

(** The function that [@transactional] wraps into [delete_document]
    (lines 249-262). *)
Definition delete_document_func (self : ElasticClient) (id : pyval) (safe : bool)
    : M unit :=
  if disable_indexing self then ret tt
  else
    try_except
      (es_request (es self) (es_delete (index self) id) ;; ret tt)
      (λ e, match e with
            | NotFoundError => if negb safe then raise e else ret tt
            | _ => raise e
            end).

(** What a call to a decorated method runs once it is let through. *)
Definition run_call (self : ElasticClient) (args : call_args) : M unit :=
  match args with
  | IndexArgs id doc => index_document_func self id doc
  | DeleteArgs id safe => delete_document_func self id safe
  end.

(** The decorated methods. *)
Definition index_document (self : ElasticClient) (id : pyval) (doc : loc) : M unit :=
  transactional run_call self (IndexArgs id doc).

Definition delete_document (self : ElasticClient) (id : pyval) (safe : bool) : M unit :=
  transactional run_call self (DeleteArgs id safe).

(** [index_object] (lines 213-223).  [index_document] accepts no keyword
    besides [id] and [doc], so the extra keywords [kw] of [index_object] are
    empty in every call that does not end in a [TypeError]; the same holds
    for [delete_object]. *)
Definition index_object (self : ElasticClient) (obj : Indexable) : M unit :=
  doc ← elastic_document obj;
  doc_id ← dict_pop doc "_id";
  index_document self doc_id doc.

(** [index_objects] (lines 206-211). *)
Fixpoint index_objects (self : ElasticClient) (objects : list Indexable) : M unit :=
  match objects with
  | [] => ret tt
  | obj :: rest => index_object self obj ;; index_objects self rest
  end.

(** [delete_object] (lines 239-246). *)
Definition delete_object (self : ElasticClient) (obj : Indexable) (safe : bool)
    : M unit :=
  doc ← elastic_document obj;
  doc_id ← dict_pop doc "_id";
  delete_document self doc_id safe.

(** [flush] (lines 264-268). *)
Definition flush (self : ElasticClient) (force : bool) : M unit :=
  es_request (es self) (indices_flush (index self) force) ;; ret tt.

(** [get] (lines 270-282).  A list or tuple is unpacked into
    [_doc_type, doc_id], which needs exactly two items. *)
Definition get (self : ElasticClient) (obj : get_arg) : M DotDict :=
  doc_id ← match obj with
            | GetSeq [_doc_type; doc_id] => ret doc_id
            | GetSeq _ => raise ValueError
            | GetObj (Some i) => ret i
            | GetObj None => raise AttributeError
            end;
  r ← es_request (es self) (es_get (index self) doc_id);
  source ← subscript r "_source";
  ret (MkDotDict source).

(** [refresh] (lines 284-286). *)
Definition refresh (self : ElasticClient) : M unit :=
  es_request (es self) (indices_refresh (index self)) ;; ret tt.

(** ** Commit and abort *)

Definition run_deferred (d : Deferred) : M unit :=
  run_call (d_client d) (d_call d).

(** Modelled from the spec: on commit the participant applies the queued
    operations in registration order; a failure stops the application and
    is the failure of the commit. *)
Fixpoint apply_all (q : list Deferred) : M unit :=
  match q with
  | [] => ret tt
  | d :: rest => run_deferred d ;; apply_all rest
  end.

Definition clear_txn (w : World) : World :=
  {| heap := heap w; next_loc := next_loc w; eng := eng w;
     trace := trace w; txn := None |}.

Definition commit : M unit := λ w, apply_all (pending w) (clear_txn w).

(** Modelled from the spec: on abort the participant discards the queue. *)
Definition abort : M unit := λ w, (clear_txn w, inr tt).

(** ** Callers *)

(** A call to the decorated method that the arguments belong to. *)
Definition invoke (self : ElasticClient) (args : call_args) : M unit :=
  match args with
  | IndexArgs id doc => index_document self id doc
  | DeleteArgs id safe => delete_document self id safe
  end.

(** The engine call that applies a deferred operation: the same kind, the
    same id, on the index and through the connection of its client. *)
Definition applies (d : Deferred) (entry : Conn * es_call) : Prop :=
  match d_call d, entry.2 with
  | IndexArgs id _, es_index i _ id' _
  | DeleteArgs id _, es_delete i id' =>
      entry.1 = es (d_client d) ∧ i = index (d_client d) ∧ id' = id
  | _, _ => False
  end.

(** The methods through which a caller writes or removes documents. *)
Inductive mutation :=
  | IndexDocument (id : pyval) (doc : loc)
  | DeleteDocument (id : pyval) (safe : bool)
  | IndexObject (obj : Indexable)
  | IndexObjects (objects : list Indexable)
  | DeleteObject (obj : Indexable) (safe : bool).

Definition perform (self : ElasticClient) (m : mutation) : M unit :=
  match m with
  | IndexDocument id doc => index_document self id doc
  | DeleteDocument id safe => delete_document self id safe
  | IndexObject obj => index_object self obj
  | IndexObjects objects => index_objects self objects
  | DeleteObject obj safe => delete_object self obj safe
  end.

(** A caller that makes the calls of [script] one after the other and
    carries on when one of them raises. *)
Definition run_script (self : ElasticClient) (script : list mutation)
    (w : World) : World :=
  foldl (λ w m, (perform self m w).1) w script.

(** Every queued operation belongs to a client whose [disable_indexing]
    is [b]. *)
Definition queue_indexing_disabled (b : bool) (w : World) : Prop :=
  Forall (λ d, disable_indexing (d_client d) = b) (pending w).

(** The computation [m] keeps the property [P] of the world, however it
    ends. *)
Definition keeps {A} (P : World → Prop) (m : M A) : Prop :=
  ∀ w, P w → P (m w).1.

(** Since the world [w0] no engine call was made, and the queue holds
    operations of clients with indexing disabled only. *)
Definition untouched_since (w0 w : World) : Prop :=
  trace w = trace w0 ∧ eng w = eng w0 ∧ queue_indexing_disabled true w.

(** Every dictionary referred to by a queued operation has been
    allocated. *)
Definition queue_allocated (w : World) : Prop :=
  Forall (λ d, match d_call d with
               | IndexArgs _ doc => doc < next_loc w
               | DeleteArgs _ _ => True
               end) (pending w).

(** The world once the projection of [obj] is allocated and its id
    popped, as [index_object] and [delete_object] begin. *)
Definition projected (obj : Indexable) (w : World) : World :=
  {| heap := <[next_loc w := delete "_id" (document_fields obj)]>
               (<[next_loc w := document_fields obj]> (heap w));
     next_loc := S (next_loc w);
     eng := eng w; trace := trace w; txn := txn w |}.

(** ** Observers of a run *)

(** The engine calls logged between the world [w] and a later world
    [w']. *)
Definition new_calls (w w' : World) : list (Conn * es_call) :=
  drop (length (trace w)) (trace w').

Definition put_mapping_calls (t : list (Conn * es_call)) : list (Conn * es_call) :=
  filter (λ x, is_put_mapping x.2 = true) t.

Definition create_or_delete_index_calls (t : list (Conn * es_call))
    : list (Conn * es_call) :=
  filter (λ x, is_create_or_delete_index x.2 = true) t.

Definition doc_mutation_calls (t : list (Conn * es_call)) : list (Conn * es_call) :=
  filter (λ x, is_doc_mutation x.2 = true) t.

(** The index has a mapping: [get_mappings] returns an object that is
    true. *)
Definition has_mapping (self : ElasticClient) (w : World) : bool :=
  match (get_mappings self w).2 with
  | inr v => truthy v
  | inl _ => false
  end.

(** The index has no mapping: [get_mappings] returns an object that is
    false, such as the empty dictionary. *)
Definition has_no_mapping (self : ElasticClient) (w : World) : bool :=
  match (get_mappings self w).2 with
  | inr v => negb (truthy v)
  | inl _ => false
  end.

(** ** Administration calls *)

(** The methods that are not decorated: index and mapping life cycle,
    flush, refresh, read and close. *)
Inductive admin_call :=
  | EnsureIndex (recreate : bool) (settings : pyval)
  | DeleteIndex
  | GetMappings
  | EnsureMapping (cls : MappedClass) (recreate : bool)
  | EnsureAllMappings (registry : list MappedClass) (recreate : bool)
  | Flush (force : bool)
  | Refresh
  | Get (obj : get_arg)
  | Close.

(** A call to one of them, its result dropped. *)
Definition run_admin (self : ElasticClient) (c : admin_call) : M unit :=
  match c with
  | EnsureIndex recreate settings => ensure_index self recreate settings
  | DeleteIndex => delete_index self
  | GetMappings => get_mappings self ;; ret tt
  | EnsureMapping cls recreate => ensure_mapping self cls recreate
  | EnsureAllMappings registry recreate => ensure_all_mappings self registry recreate
  | Flush force => flush self force
  | Refresh => refresh self
  | Get obj => get self obj ;; ret tt
  | Close => close self
  end.

(** Two classes never give different values to one key. *)
Definition compatible_classes (registry : list MappedClass) : Prop :=
  ∀ (a b : MappedClass) (k : string) (va vb : pyval),
    a ∈ registry → b ∈ registry →
    class_contribution a !! k = Some va → class_contribution b !! k = Some vb →
    va = vb.

(** Since the world [w0] engine calls may have been made, and nothing
    else happened: the heap and the queue are as they were. *)
Definition only_calls_since (w0 w : World) : Prop :=
  txn w = txn w0 ∧ heap w = heap w0 ∧ next_loc w = next_loc w0 ∧
  ∃ calls, trace w = trace w0 ++ calls.

End Client.

(** ** Construction *)

Section Construction.
(** The type of the [timeout] values, which the code only passes on. *)
Context {Timeout : Type}.

(** The arguments of a call to the [Elasticsearch] constructor.  [o_auth] is
    [None] when the keyword is not passed. *)
Record es_options := {
  o_servers : pyval;
  o_auth : option pyval;
  o_use_ssl : bool;
  o_verify_certs : bool;
  o_timeout : Timeout;
  o_retry_on_timeout : bool;
  o_max_retries : Z
}.

(** The fields of an [ElasticClientInfo] (lines 88-93). *)
Record ElasticClientInfo := {
  info_servers : pyval;
  info_use_ssl : bool;
  info_verify_certs : bool;
  info_index : string;
  info_timeout : Timeout;
  info_timeout_retries : Z
}.

(** The constructor of the library: the handle it returns for the
    arguments. *)
Context (Elasticsearch : es_options → Conn).

(** [ElasticClientInfo.open] (lines 95-102). *)
Definition open (self : ElasticClientInfo) : Conn :=
  Elasticsearch
    {| o_servers := info_servers self;
       o_auth := None;
       o_use_ssl := info_use_ssl self;
       o_verify_certs := info_verify_certs self;
       o_timeout := info_timeout self;
       o_retry_on_timeout := (0 <? info_timeout_retries self)%Z;
       o_max_retries := info_timeout_retries self |}.

(** The arguments of [ElasticClient.__init__] (lines 111-119).  The index
    is a name; [transaction_manager] is only handed to
    [TransactionClient.__init__] and is left out. *)
Record init_args := {
  a_servers : pyval;
  a_index : string;
  a_using : option ElasticClientInfo;
  a_auth : pyval;
  a_use_ssl : bool;
  a_verify_certs : bool;
  a_timeout : Timeout;
  a_timeout_retries : Z;
  a_disable_indexing : bool;
  a_use_transaction : bool
}.

Inductive init_exn := AssertionError (message : string).

(** [ElasticClient.__init__] (lines 111-135).  An [ElasticClientInfo] is
    true as a Python object, so [servers or using] is false exactly when
    [servers] is false and [using] is [None]. *)
Definition __init__ (args : init_args) : init_exn + ElasticClient :=
  if truthy (a_servers args) || bool_decide (is_Some (a_using args)) then
    match a_using args with
    | Some using_ =>
        inr {| es := open using_;
               index := info_index using_;
               disable_indexing := a_disable_indexing args;
               use_transaction := a_use_transaction args |}
    | None =>
        inr {| es := Elasticsearch
                       {| o_servers := a_servers args;
                          o_auth := Some (a_auth args);
                          o_use_ssl := a_use_ssl args;
                          o_verify_certs := a_verify_certs args;
                          o_timeout := a_timeout args;
                          o_retry_on_timeout := (0 <? a_timeout_retries args)%Z;
                          o_max_retries := a_timeout_retries args |};
               index := a_index args;
               disable_indexing := a_disable_indexing args;
               use_transaction := a_use_transaction args |}
    end
  else inl (AssertionError "You must provide servers or connection info!").

End Construction.

(** ** A reference engine

    An in-memory engine with the behaviour the client relies on: deleting or
    reading what is absent answers [NotFoundError].  It instantiates the
    theorems at concrete inputs. *)

Record IndexData := {
  ix_settings : dict;
  ix_mappings : dict;
  ix_docs : gmap string dict
}.

Definition ack : pyval := PDict {[ "acknowledged" := PBool true ]}.

Definition mem_respond (c : es_call) (s : gmap string IndexData)
    : gmap string IndexData * (exn + pyval) :=
  match c with
  | indices_exists i => (s, inr (PBool (bool_decide (is_Some (s !! i)))))
  | indices_delete i =>
      match s !! i with
      | Some _ => (delete i s, inr ack)
      | None => (s, inl NotFoundError)
      end
  | indices_create i body =>
      match s !! i with
      | Some _ => (s, inl (EngineError "resource_already_exists_exception"))
      | None => (<[i := {| ix_settings := body; ix_mappings := ∅; ix_docs := ∅ |}]> s,
                 inr ack)
      end
  | indices_get_mapping i =>
      match s !! i with
      | Some ix => (s, inr (PDict {[ i := PDict {[ "mappings" := PDict (ix_mappings ix) ]} ]}))
      | None => (s, inl NotFoundError)
      end
  | indices_put_mapping i body =>
      match s !! i with
      | Some ix => (<[i := {| ix_settings := ix_settings ix;
                              ix_mappings := dict_update (ix_mappings ix) body;
                              ix_docs := ix_docs ix |}]> s, inr ack)
      | None => (s, inl NotFoundError)
      end
  | indices_flush i _ | indices_refresh i =>
      match s !! i with
      | Some _ => (s, inr ack)
      | None => (s, inl NotFoundError)
      end
  | es_index i document (PStr id) _ =>
      let ix := default {| ix_settings := ∅; ix_mappings := ∅; ix_docs := ∅ |} (s !! i) in
      (<[i := {| ix_settings := ix_settings ix; ix_mappings := ix_mappings ix;
                 ix_docs := <[id := document]> (ix_docs ix) |}]> s,
       inr (PDict {[ "_index" := PStr i; "_id" := PStr id ]}))
  | es_delete i (PStr id) =>
      match s !! i with
      | Some ix =>
          match ix_docs ix !! id with
          | Some _ => (<[i := {| ix_settings := ix_settings ix;
                                 ix_mappings := ix_mappings ix;
                                 ix_docs := delete id (ix_docs ix) |}]> s,
                       inr (PDict {[ "_index" := PStr i; "_id" := PStr id ]}))
          | None => (s, inl NotFoundError)
          end
      | None => (s, inl NotFoundError)
      end
  | es_get i (PStr id) =>
      match s !! i ≫= λ ix, ix_docs ix !! id with
      | Some document =>
          (s, inr (PDict {[ "_index" := PStr i; "_id" := PStr id;
                            "_source" := PDict document ]}))
      | None => (s, inl NotFoundError)
      end
  | es_index _ _ _ _ | es_delete _ _ | es_get _ _ =>
      (s, inl (EngineError "illegal_argument_exception"))
  | es_close => (s, inr PNone)
  end.

Definition mem_engine : Engine :=
  {| eng_state := gmap string IndexData; respond := mem_respond |}.

(** A world with nothing allocated, nothing logged and no unit of work
    joined, over the engine state [s]. *)
Definition init_world (s : gmap string IndexData) : World (E := mem_engine) :=
  @Build_World mem_engine ∅ 0 s [] None.

(** An engine state holding one index with the given mappings and
    documents. *)
Definition one_index (i : string) (mappings : dict) (docs : gmap string dict)
    : gmap string IndexData :=
  {[ i := {| ix_settings := ∅; ix_mappings := mappings; ix_docs := docs |} ]}.

(** ** Example inputs *)

Module Examples.

(** A transactional client, one that is not, and one with indexing
    disabled, all on the index ["idx"] through the connection [0]. *)
Definition client_tx : ElasticClient :=
  {| es := 0; index := "idx"; disable_indexing := false; use_transaction := true |}.
Definition client_now : ElasticClient :=
  {| es := 0; index := "idx"; disable_indexing := false; use_transaction := false |}.
Definition client_off : ElasticClient :=
  {| es := 0; index := "idx"; disable_indexing := true; use_transaction := true |}.

Definition keyword : pyval := PDict {[ "type" := PStr "keyword" ]}.
Definition text : pyval := PDict {[ "type" := PStr "text" ]}.

(** An engine without any index, one with the empty index ["idx"], and
    one whose index ["idx"] has a mapping. *)
Definition no_index : World (E := mem_engine) := init_world ∅.
Definition empty_index : World (E := mem_engine) := init_world (one_index "idx" ∅ ∅).
Definition mapped_index : World (E := mem_engine) :=
  init_world (one_index "idx" {[ "title" := text ]} ∅).

(** Two indexes that hold different documents under the id ["1"]. *)
Definition two_indexes : World (E := mem_engine) :=
  init_world
    (<[ "other" := {| ix_settings := ∅; ix_mappings := ∅;
                      ix_docs := {[ "1" := {[ "title" := PStr "b" ]} ]} |} ]>
       (one_index "idx" ∅ {[ "1" := {[ "title" := PStr "a" ]} ]})).

(** Three mapped classes: A sets ["status"]; B has no mapping of its own
    and an extension that sets ["status"]; C sets ["title"]. *)
Definition class_A : MappedClass :=
  {| provides_IElasticMapping := true;
     elastic_mapping := {[ "status" := keyword ]};
     mapping_extensions := [] |}.
Definition class_B : MappedClass :=
  {| provides_IElasticMapping := true;
     elastic_mapping := ∅;
     mapping_extensions := [("status-extension", {[ "status" := text ]})] |}.
Definition class_C : MappedClass :=
  {| provides_IElasticMapping := true;
     elastic_mapping := {[ "title" := text ]};
     mapping_extensions := [] |}.

(** B with a mapping of its own. *)
Definition class_B' : MappedClass :=
  {| provides_IElasticMapping := true;
     elastic_mapping := {[ "owner" := keyword ]};
     mapping_extensions := [("status-extension", {[ "status" := text ]})] |}.

(** An object whose document names a pipeline, and one without id. *)
Definition article : Indexable :=
  {| document_fields := {[ "_id" := PStr "doc1"; "__pipeline__" := PStr "attachment";
                           "title" := PStr "a" ]} |}.
Definition nameless : Indexable :=
  {| document_fields := {[ "title" := PStr "a" ]} |}.

(** The world of the scenario: with indexing enabled and a transactional
    client, [index_document("doc1", {"title": "a"})] and then
    [delete_document("doc1")] are called. *)
Definition scenario : World (E := mem_engine) :=
  let w := (alloc {[ "title" := PStr "a" ]} empty_index).1 in
  let w := (index_document client_tx (PStr "doc1") 0 w).1 in
  (delete_document client_tx (PStr "doc1") false w).1.


End Examples.

(** ** More engines and inputs *)

Module MoreExamples.
Import Examples.

(** An engine that refuses every call. *)
Definition down_engine : Engine :=
  {| eng_state := unit;
     respond := λ _ s, (s, inl (EngineError "ConnectionError")) |}.

(** An engine whose index exists and cannot be deleted, which answers a
    request for the mappings under the name of the concrete index behind
    the name asked for, as for an alias, and any other call with an empty
    object. *)
Definition alias_engine : Engine :=
  {| eng_state := unit;
     respond := λ c s,
       match c with
       | indices_exists _ => (s, inr (PBool true))
       | indices_delete _ => (s, inl (EngineError "cluster_block_exception"))
       | indices_get_mapping _ =>
           (s, inr (PDict {[ "idx-000001" := PDict {[ "mappings" := PDict ∅ ]} ]}))
       | _ => (s, inr (PDict ∅))
       end |}.

Definition down_world : World (E := down_engine) :=
  @Build_World down_engine ∅ 0 tt [] None.
Definition alias_world : World (E := alias_engine) :=
  @Build_World alias_engine ∅ 0 tt [] None.

(** A dictionary with a pipeline marker, and one without, at the
    reference [0]. *)
Definition marked : dict :=
  {[ "__pipeline__" := PStr "attachment"; "title" := PStr "a" ]}.
Definition plain : dict := {[ "title" := PStr "a" ]}.
Definition marked_world : World (E := mem_engine) := (alloc marked empty_index).1.
Definition plain_world : World (E := mem_engine) := (alloc plain empty_index).1.

(** A class that does not provide a mapping, with a mapping and an
    extension all the same. *)
Definition class_D : MappedClass :=
  {| provides_IElasticMapping := false;
     elastic_mapping := {[ "owner" := keyword ]};
     mapping_extensions := [("owner-extension", {[ "owner" := text ]})] |}.

(** Connection info and constructor arguments; the handle tells whether
    retries were asked for. *)
Definition handle_of (opts : es_options (Timeout := nat)) : Conn :=
  if o_retry_on_timeout opts then 1 else 0.
Definition info : ElasticClientInfo (Timeout := nat) :=
  {| info_servers := PList [PStr "http://es1:9200"];
     info_use_ssl := false; info_verify_certs := true;
     info_index := "idx"; info_timeout := 10; info_timeout_retries := 3 |}.
Definition args_using : init_args (Timeout := nat) :=
  {| a_servers := PNone; a_index := "ignored"; a_using := Some info;
     a_auth := PNone; a_use_ssl := false; a_verify_certs := true;
     a_timeout := 10; a_timeout_retries := 0;
     a_disable_indexing := false; a_use_transaction := true |}.
Definition args_using' : init_args (Timeout := nat) :=
  {| a_servers := PList [PStr "http://other:9200"]; a_index := "other";
     a_using := Some info;
     a_auth := PStr "secret"; a_use_ssl := true; a_verify_certs := false;
     a_timeout := 1; a_timeout_retries := 7;
     a_disable_indexing := false; a_use_transaction := true |}.
Definition args_servers : init_args (Timeout := nat) :=
  {| a_servers := PList [PStr "http://es1:9200"]; a_index := "idx";
     a_using := None;
     a_auth := PNone; a_use_ssl := false; a_verify_certs := true;
     a_timeout := 10; a_timeout_retries := 0;
     a_disable_indexing := false; a_use_transaction := true |}.
Definition args_nothing : init_args (Timeout := nat) :=
  {| a_servers := PList []; a_index := "idx"; a_using := None;
     a_auth := PNone; a_use_ssl := false; a_verify_certs := true;
     a_timeout := 10; a_timeout_retries := 0;
     a_disable_indexing := false; a_use_transaction := true |}.

End MoreExamples.

(** * Properties *)

Section Properties.
Context {E : Engine}.
Implicit Types (w : World (E := E)) (self : ElasticClient).

(** ** Basic facts about the log *)

Lemma new_calls_app w w' (l : list (Conn * es_call)) :
  trace w' = trace w ++ l → new_calls w w' = l.
Proof. unfold new_calls. intros ->. apply drop_app_length. Qed.

Lemma get_mappings_world self w :
  (get_mappings self w).1
    = after_request (es self) (indices_get_mapping (index self)) w.
Proof.
  unfold get_mappings, bind, es_request, subscript, ret, raise; simpl.
  destruct (answer _ w) as [e|[]]; simpl; try reflexivity.
  destruct (d !! index self) as [[]|]; simpl; try reflexivity.
  destruct (d0 !! "mappings"); reflexivity.
Qed.

Lemma get_mappings_trace self w :
  trace (get_mappings self w).1
    = trace w ++ [(es self, indices_get_mapping (index self))].
Proof. rewrite get_mappings_world. reflexivity. Qed.

(** ** Context manager *)

(** C10: used as a context manager, the client hands the block the
    connection handle [self.es], not itself, and [__exit__] closes that
    connection after the block whether the block returned or raised; what
    the block raised is raised again unless closing fails. *)
Theorem context_manager_yields_handle_and_closes {A : Type} self
    (body : Conn → M A) w :
  __enter__ self = es self ∧
  (with_client self body w).1
    = after_request (es self) es_close (body (es self) w).1 ∧
  (with_client self body w).2
    = match answer es_close (body (es self) w).1 with
      | inl e => inl e
      | inr _ => (body (es self) w).2
      end.
Proof.
  split; [reflexivity|].
  unfold with_client, __enter__, __exit__, bind, es_request, ret, raise.
  destruct (body (es self) w) as [w1 [e|a]]; simpl;
    destruct (answer es_close w1); simpl; auto.
Qed.

(** ** Index life cycle *)

(** C7: [delete_index] asks the engine to delete the index without looking
    first, exactly once, and whatever the engine raises, [NotFoundError]
    for an absent index included, reaches the caller as it is. *)
Theorem delete_index_unconditional_propagates self w :
  (delete_index self w).1
    = after_request (es self) (indices_delete (index self)) w ∧
  trace (delete_index self w).1
    = trace w ++ [(es self, indices_delete (index self))] ∧
  (delete_index self w).2
    = match answer (indices_delete (index self)) w with
      | inl e => inl e
      | inr _ => inr tt
      end.
Proof.
  unfold delete_index, bind, es_request, ret; simpl.
  destruct (answer (indices_delete (index self)) w); simpl; auto.
Qed.

(** C4, as amended: with [recreate] false, an index that exists is left
    alone, with no create and no delete call; an absent one is created
    with the caller's settings when these are true as a Python object, and
    with the default analyzer and shard configuration when they are
    [None] or empty. *)
Theorem ensure_index_no_recreate self (settings : pyval) w (v : pyval) :
  answer (indices_exists (index self)) w = inr v →
  let w1 := after_request (es self) (indices_exists (index self)) w in
  let used := py_or settings (PDict CREATE_INDEX_SETTINGS) in
  (truthy v = true →
     ensure_index self false settings w = (w1, inr tt) ∧
     create_or_delete_index_calls
       (new_calls w (ensure_index self false settings w).1) = []) ∧
  (truthy v = false →
     new_calls w (ensure_index self false settings w).1
       = [(es self, indices_exists (index self));
          (es self, indices_create (index self) {[ "settings" := used ]})]) ∧
  (truthy settings = true → used = settings) ∧
  (truthy settings = false → used = PDict CREATE_INDEX_SETTINGS) ∧
  CREATE_INDEX_SETTINGS !! "analysis" = ANALYZER_SETTINGS !! "analysis" ∧
  CREATE_INDEX_SETTINGS !! "index"
    = Some (PDict {[ "number_of_shards" := PInt 2;
                     "number_of_replicas" := PInt 0 ]}).
Proof.
  intros Hv w1 used.
  unfold ensure_index, bind, es_request, ret. rewrite Hv. fold w1.
  split; [|split; [|split; [|split; [|split]]]].
  - intros ->. simpl. split; [reflexivity|].
    rewrite (new_calls_app w w1 [(es self, indices_exists (index self))]);
      reflexivity.
  - intros ->. simpl. fold used.
    destruct (answer _ w1); simpl;
      apply new_calls_app; simpl; rewrite <- app_assoc; reflexivity.
  - unfold used, py_or. intros ->. reflexivity.
  - unfold used, py_or. intros ->. reflexivity.
  - reflexivity.
  - reflexivity.
Qed.

(** ** Mappings *)

(** C5: with [recreate] false, [ensure_mapping] and [ensure_all_mappings]
    make no put-mapping call when the index has a mapping, make one only
    when it has none, and then push the class's mapping, respectively the
    merged one. *)
Theorem mapping_pushed_only_when_absent self (cls : MappedClass)
    (registry : list MappedClass) w :
  let one := new_calls w (ensure_mapping self cls false w).1 in
  let all := new_calls w (ensure_all_mappings self registry false w).1 in
  (has_mapping self w = true →
     put_mapping_calls one = [] ∧ put_mapping_calls all = []) ∧
  (put_mapping_calls one ≠ [] → has_no_mapping self w = true) ∧
  (put_mapping_calls all ≠ [] → has_no_mapping self w = true) ∧
  (has_no_mapping self w = true →
     put_mapping_calls one
       = [(es self, indices_put_mapping (index self) (elastic_mapping cls))] ∧
     put_mapping_calls all
       = [(es self, indices_put_mapping (index self) (foldl merge_class ∅ registry))]).
Proof.
  intros one all. unfold one, all. clear one all.
  unfold has_mapping, has_no_mapping, ensure_mapping, ensure_all_mappings, bind.
  pose proof (get_mappings_trace self w) as Ht.
  destruct (get_mappings self w) as [w1 [e|v]]; simpl in *.
  - rewrite (new_calls_app _ _ _ Ht). split; [discriminate|].
    split; [intros []; reflexivity|]. split; [intros []; reflexivity|discriminate].
  - destruct (truthy v); simpl.
    + rewrite (new_calls_app _ _ _ Ht). split; [intros _; split; reflexivity|].
      split; [intros []; reflexivity|]. split; [intros []; reflexivity|discriminate].
    + unfold es_request, ret; simpl.
      assert (∀ c b, new_calls w
                (match answer c w1 with
                 | inl e => (after_request (es self) c w1, @inl exn unit e)
                 | inr _ => (after_request (es self) c w1, inr b)
                 end).1
              = [(es self, indices_get_mapping (index self)); (es self, c)]) as Hn.
      { intros c b. destruct (answer c w1); simpl;
          apply new_calls_app; simpl; rewrite Ht, <- app_assoc; reflexivity. }
      rewrite !Hn. split; [discriminate|].
      split; [reflexivity|]. split; [reflexivity|]. intros _. split; reflexivity.
Qed.

(** ** Reading a document *)

(** C8, as amended: [get] asks the engine at once for the document with
    the given id in the client's own index, whatever the first item of a
    pair says and whether or not the client is transactional, makes no
    other call, leaves the unit of work alone, and wraps the [_source] of
    the answer in a [DotDict]. *)
Theorem get_reads_client_index self (first id : pyval) w :
  let c := es_get (index self) id in
  get self (GetSeq [first; id]) w = get self (GetObj (Some id)) w ∧
  (get self (GetObj (Some id)) w).1 = after_request (es self) c w ∧
  new_calls w (get self (GetObj (Some id)) w).1 = [(es self, c)] ∧
  txn (get self (GetObj (Some id)) w).1 = txn w ∧
  (get self (GetObj (Some id)) w).2
    = match answer c w with
      | inl e => inl e
      | inr (PDict r) =>
          match r !! "_source" with
          | Some source => inr (MkDotDict source)
          | None => inl (KeyError "_source")
          end
      | inr _ => inl TypeError
      end.
Proof.
  intros c. split; [reflexivity|].
  assert ((get self (GetObj (Some id)) w).1 = after_request (es self) c w) as Hw.
  { unfold get, bind, es_request, subscript, ret, raise; simpl. fold c.
    destruct (answer c w) as [e|[]]; simpl; try reflexivity.
    destruct (d !! "_source"); reflexivity. }
  rewrite Hw. repeat split.
  - apply new_calls_app. reflexivity.
  - unfold get, bind, es_request, subscript, ret, raise; simpl. fold c.
    destruct (answer c w) as [e|[]]; simpl; try reflexivity.
    destruct (d !! "_source"); reflexivity.
Qed.

(** ** Deleting a document *)

(** C3: [delete_document] sends the engine one delete call for the id, and
    its outcome is made from the engine's answer to that call: when the
    answer is [NotFoundError], the deletion raises that [NotFoundError]
    exactly when [safe] is false, and returns normally, the error swallowed,
    when [safe] is true.  This holds where the engine is asked: in the call
    itself for a client that is not transactional, and at commit for one
    that is, whose call only registers the deletion. *)
Theorem delete_document_absent_raises_iff_unsafe self (id : pyval)
    (safe : bool) w :
  disable_indexing self = false →
  answer (es_delete (index self) id) w = inl NotFoundError →
  let request := es_delete (index self) id in
  (∀ w', (delete_document_func self id safe w').1 = after_request (es self) request w' ∧
         (delete_document_func self id safe w').2
           = match answer request w' with
             | inl NotFoundError => if safe then inr tt else inl NotFoundError
             | inl e => inl e
             | inr _ => inr tt
             end) ∧
  new_calls w (delete_document_func self id safe w).1 = [(es self, request)] ∧
  ((delete_document_func self id safe w).2 = inl NotFoundError ↔ safe = false) ∧
  (safe = true → (delete_document_func self id safe w).2 = inr tt) ∧
  (use_transaction self = false →
     delete_document self id safe w = delete_document_func self id safe w) ∧
  (use_transaction self = true → pending w = [] →
     (delete_document self id safe w).2 = inr tt ∧
     new_calls w (delete_document self id safe w).1 = [] ∧
     new_calls w (commit (delete_document self id safe w).1).1 = [(es self, request)] ∧
     (commit (delete_document self id safe w).1).2
       = (delete_document_func self id safe w).2).
Proof.
  intros Hd Ha request.
  assert (∀ w', (delete_document_func self id safe w').1
                  = after_request (es self) request w' ∧
                (delete_document_func self id safe w').2
                  = match answer request w' with
                    | inl NotFoundError => if safe then inr tt else inl NotFoundError
                    | inl e => inl e
                    | inr _ => inr tt
                    end) as Hall.
  { intros w'. unfold delete_document_func, try_except, bind, es_request, ret, raise.
    rewrite Hd. fold request.
    destruct (answer request w') as [[]|]; simpl; try (split; reflexivity).
    destruct safe; split; reflexivity. }
  assert ((delete_document_func self id safe w).2
          = if safe then inr tt else inl NotFoundError) as Hf.
  { destruct (Hall w) as (_ & ->). unfold request. rewrite Ha. reflexivity. }
  split; [exact Hall|]. split; [|split; [|split; [|split]]].
  - apply new_calls_app. destruct (Hall w) as (-> & _). reflexivity.
  - rewrite Hf. destruct safe; split; congruence.
  - intros ->. exact Hf.
  - intros Hu. unfold delete_document, transactional. rewrite Hu. reflexivity.
  - intros Hu Hp. unfold delete_document, transactional. rewrite Hu.
    split; [reflexivity|].
    split; [apply (new_calls_app w _ []); simpl; by rewrite app_nil_r|].
    set (w1 := (register _ w).1).
    assert (commit w1
            = delete_document_func self id safe (clear_txn w1)) as Hc.
    { assert (∀ (m : M unit) w0, bind m (λ _, ret tt) w0 = m w0) as Hb
        by (intros m w0; unfold bind, ret; destruct (m w0) as [? [?|[]]]; reflexivity).
      assert (pending w1 = [ {| d_client := self; d_call := DeleteArgs id safe |} ])
        as Hq.
      { unfold w1, register, pending in *. simpl.
        destruct (txn w); simpl in *; by subst. }
      unfold commit. rewrite Hq. simpl. apply Hb. }
    rewrite Hc. destruct (Hall (clear_txn w1)) as (-> & ->).
    destruct (Hall w) as (_ & ->).
    split; [apply new_calls_app; reflexivity|reflexivity].
Qed.

(** ** Computations that keep a property *)

Lemma keeps_bind {A B} (P : World (E := E) → Prop) (m : M A) (k : A → M B) :
  keeps P m → (∀ a, keeps P (k a)) → keeps P (bind m k).
Proof.
  intros Hm Hk w Hw. unfold bind. specialize (Hm w Hw).
  destruct (m w) as [w1 [e|a]]; simpl in *; [assumption|by apply Hk].
Qed.

Lemma keeps_ret {A} (P : World (E := E) → Prop) (a : A) : keeps P (ret a).
Proof. intros w Hw. exact Hw. Qed.

Lemma keeps_raise {A} (P : World (E := E) → Prop) (e : exn) : keeps P (@raise E A e).
Proof. intros w Hw. exact Hw. Qed.

Lemma untouched_alloc w0 (d : dict) : keeps (untouched_since w0) (alloc d).
Proof. intros w Hw. exact Hw. Qed.

Lemma untouched_load w0 (l : loc) : keeps (untouched_since w0) (load l).
Proof. intros w Hw. exact Hw. Qed.

Lemma untouched_store w0 (l : loc) (d : dict) : keeps (untouched_since w0) (store l d).
Proof. intros w Hw. exact Hw. Qed.

Lemma untouched_dict_pop w0 (l : loc) (key : string) :
  keeps (untouched_since w0) (dict_pop l key).
Proof.
  unfold dict_pop. apply keeps_bind; [apply untouched_load|]. intros d.
  destruct (d !! key).
  - apply keeps_bind; [apply untouched_store|]. intros _. apply keeps_ret.
  - apply keeps_raise.
Qed.

Lemma untouched_invoke w0 self (args : call_args) :
  disable_indexing self = true → keeps (untouched_since w0) (invoke self args).
Proof.
  intros Hd w (Ht & He & Hq).
  assert (invoke self args = transactional run_call self args) as ->
    by (destruct args; reflexivity).
  unfold transactional. destruct (use_transaction self).
  - repeat split; try assumption.
    unfold queue_indexing_disabled, pending, register in *. simpl.
    destruct (txn w); simpl in *.
    + apply Forall_app. split; [assumption|]. by constructor.
    + by constructor.
  - destruct args; simpl; unfold index_document_func, delete_document_func;
      rewrite Hd; repeat split; assumption.
Qed.

Lemma untouched_index_object w0 self (obj : Indexable) :
  disable_indexing self = true → keeps (untouched_since w0) (index_object self obj).
Proof.
  intros Hd. unfold index_object, elastic_document.
  apply keeps_bind; [apply untouched_alloc|]. intros doc.
  apply keeps_bind; [apply untouched_dict_pop|]. intros doc_id.
  apply (untouched_invoke w0 self (IndexArgs doc_id doc) Hd).
Qed.

Lemma untouched_perform w0 self (m : mutation) :
  disable_indexing self = true → keeps (untouched_since w0) (perform self m).
Proof.
  intros Hd. destruct m as [id doc|id safe|obj|objects|obj safe]; simpl.
  - apply (untouched_invoke w0 self (IndexArgs id doc) Hd).
  - apply (untouched_invoke w0 self (DeleteArgs id safe) Hd).
  - by apply untouched_index_object.
  - induction objects as [|obj rest IH]; simpl; [apply keeps_ret|].
    apply keeps_bind; [by apply untouched_index_object|]. intros _. exact IH.
  - unfold delete_object, elastic_document.
    apply keeps_bind; [apply untouched_alloc|]. intros doc.
    apply keeps_bind; [apply untouched_dict_pop|]. intros doc_id.
    apply (untouched_invoke w0 self (DeleteArgs doc_id safe) Hd).
Qed.

Lemma untouched_run_script w0 self (script : list mutation) w :
  disable_indexing self = true →
  untouched_since w0 w → untouched_since w0 (run_script self script w).
Proof.
  intros Hd. unfold run_script. revert w.
  induction script as [|m script IH]; intros w Hw; simpl; [assumption|].
  apply IH. by apply untouched_perform.
Qed.

Lemma apply_all_disabled (q : list Deferred) w :
  Forall (λ d, disable_indexing (d_client d) = true) q →
  apply_all q w = (w, inr tt).
Proof.
  induction 1 as [|d q Hd _ IH]; simpl; [reflexivity|].
  unfold bind, run_deferred.
  assert (run_call (d_client d) (d_call d) w = (w, inr tt)) as ->; [|exact IH].
  destruct (d_call d); simpl; unfold index_document_func, delete_document_func;
    rewrite Hd; reflexivity.
Qed.

(** ** Indexing disabled *)

(** C2: a client with [disable_indexing] set makes no engine call and
    leaves the engine as it was, whatever documents and objects are
    submitted through its index and delete methods, in whatever number,
    and whether the unit of work then commits or aborts. *)
Theorem disabled_indexing_reaches_no_engine self (script : list mutation) w :
  disable_indexing self = true →
  queue_indexing_disabled true w →
  let w1 := run_script self script w in
  (trace w1 = trace w ∧ eng w1 = eng w) ∧
  (trace (commit w1).1 = trace w ∧ eng (commit w1).1 = eng w) ∧
  (trace (abort w1).1 = trace w ∧ eng (abort w1).1 = eng w) ∧
  doc_mutation_calls (new_calls w (commit w1).1) = [].
Proof.
  intros Hd Hq w1.
  destruct (untouched_run_script w self script w Hd) as (Ht & He & Hq1).
  { repeat split; assumption. }
  fold w1 in Ht, He, Hq1.
  assert (commit w1 = (clear_txn w1, inr tt)) as Hc
    by (unfold commit; by rewrite apply_all_disabled).
  rewrite Hc. simpl.
  split; [by split|]. split; [by split|]. split; [by split|].
  unfold new_calls. simpl. rewrite Ht, drop_all. reflexivity.
Qed.

(** ** The unit of work *)

Lemma index_document_func_enabled self (id : pyval) (doc : loc) w :
  disable_indexing self = false →
  let d := heap w !!! doc in
  (index_document_func self id doc w).1
    = after_request (es self)
        (es_index (index self) (delete "__pipeline__" d) id (d !! "__pipeline__"))
        (if bool_decide (is_Some (d !! "__pipeline__"))
         then (store doc (delete "__pipeline__" d) w).1 else w).
Proof.
  intros Hd d. unfold index_document_func. rewrite Hd.
  unfold bind at 1. unfold load at 1. simpl. fold d.
  destruct (d !! "__pipeline__") as [p|] eqn:Hp.
  - rewrite bool_decide_eq_true_2 by eauto.
    unfold dict_pop, es_index_request, bind, load, store, es_request, ret. simpl.
    fold d. rewrite Hp. simpl. rewrite lookup_total_insert_eq.
    destruct (answer _ _); reflexivity.
  - rewrite bool_decide_eq_false_2 by (intros [? ?]; discriminate).
    unfold es_index_request, bind, load, es_request, ret. simpl. fold d.
    rewrite delete_id by exact Hp.
    destruct (answer _ _); reflexivity.
Qed.

Lemma delete_document_func_enabled self (id : pyval) (safe : bool) w :
  disable_indexing self = false →
  (delete_document_func self id safe w).1
    = after_request (es self) (es_delete (index self) id) w.
Proof.
  intros Hd. unfold delete_document_func, try_except, bind, es_request, ret, raise.
  rewrite Hd. destruct (answer _ w) as [[]|]; simpl; try reflexivity.
  destruct safe; reflexivity.
Qed.

(** Applying an operation of a client that indexes makes exactly one
    engine call, the one that applies it, and leaves the queue alone. *)
Lemma run_call_enabled self (args : call_args) w :
  disable_indexing self = false →
  ∃ entry, trace (run_call self args w).1 = trace w ++ [entry] ∧
           applies {| d_client := self; d_call := args |} entry ∧
           txn (run_call self args w).1 = txn w.
Proof.
  intros Hd. destruct args as [id doc|id safe]; simpl.
  - rewrite index_document_func_enabled by exact Hd.
    eexists. split; [|split].
    + simpl. case_bool_decide; reflexivity.
    + unfold applies. simpl. auto.
    + simpl. case_bool_decide; reflexivity.
  - rewrite delete_document_func_enabled by exact Hd.
    eexists. split; [reflexivity|]. unfold applies. simpl. auto.
Qed.




(** ** Merging the mappings of all classes *)

Lemma foldl_apply_extension_skip (k : string) (exts : list (string * dict)) (m : dict) :
  Forall (λ x, x.2 !! k = None) exts →
  foldl apply_extension m exts !! k = m !! k.
Proof.
  intros H. revert m. induction H as [|x exts Hx _ IH]; intros m; simpl; [reflexivity|].
  rewrite IH. unfold apply_extension, dict_update. by apply lookup_union_r.
Qed.

Lemma merge_class_contribution (acc : dict) (cls : MappedClass) :
  merge_class acc cls = class_contribution cls ∪ acc.
Proof.
  unfold class_contribution, merge_class, dict_update.
  destruct (provides_IElasticMapping cls); simpl; [|by rewrite (left_id_L ∅ (∪))].
  destruct (dict_truthy (elastic_mapping cls)).
  - by rewrite (right_id_L ∅ (∪)).
  - by rewrite (left_id_L ∅ (∪)).
Qed.

Lemma foldl_merge_class_skip (k : string) (classes : list MappedClass) (acc : dict) :
  Forall (λ cls, class_contribution cls !! k = None) classes →
  foldl merge_class acc classes !! k = acc !! k.
Proof.
  intros H. revert acc. induction H as [|cls classes Hc _ IH]; intros acc; simpl;
    [reflexivity|].
  rewrite IH, merge_class_contribution. by apply lookup_union_r.
Qed.

Lemma foldl_merge_class_spec (classes : list MappedClass) (acc : dict) :
  foldl merge_class acc classes
    = foldl spec_merge_class acc
        (filter (λ cls, dict_truthy (elastic_mapping cls) = true) classes).
Proof.
  revert acc. induction classes as [|cls classes IH]; intros acc; [reflexivity|].
  simpl. rewrite IH. unfold filter at 2. simpl. fold (filter (λ cls, dict_truthy (elastic_mapping cls) = true) classes).
  unfold merge_class, spec_merge_class.
  destruct (decide (dict_truthy (elastic_mapping cls) = true)) as [Ht|Hf].
  - simpl. rewrite Ht. destruct (provides_IElasticMapping cls); reflexivity.
  - apply not_true_is_false in Hf. rewrite Hf.
    destruct (provides_IElasticMapping cls); reflexivity.
Qed.

(** C6, as amended: [ensure_all_mappings] merges, in registry order, the
    descriptor of every class that provides a mapping and whose own
    descriptor is not empty, overridden by the class's extensions in
    their order; a later contribution overrides an earlier one.  So when
    such a class B has an extension that sets a key, and neither a later
    extension of B nor a later class sets it, the mapping pushed for an
    index without mapping holds the value of B's extension for that
    key. *)
Theorem merged_mapping_reflects_extension self (recreate : bool) w
    (before after : list MappedClass) (B : MappedClass)
    (exts1 exts2 : list (string * dict)) (name : string) (ext : dict)
    (k : string) (v : pyval) :
  provides_IElasticMapping B = true →
  dict_truthy (elastic_mapping B) = true →
  mapping_extensions B = exts1 ++ (name, ext) :: exts2 →
  ext !! k = Some v →
  Forall (λ x, x.2 !! k = None) exts2 →
  Forall (λ cls, class_contribution cls !! k = None) after →
  let registry := before ++ B :: after in
  let merged := foldl merge_class ∅ registry in
  merged !! k = Some v ∧
  merged = foldl spec_merge_class ∅
             (filter (λ cls, dict_truthy (elastic_mapping cls) = true) registry) ∧
  (has_no_mapping self w = true →
     new_calls w (ensure_all_mappings self registry recreate w).1
       = [(es self, indices_get_mapping (index self));
          (es self, indices_put_mapping (index self) merged)]).
Proof.
  intros Hp Ht He Hk H2 Ha registry merged.
  split; [|split].
  - unfold merged, registry. rewrite foldl_app. simpl.
    rewrite foldl_merge_class_skip by exact Ha.
    unfold merge_class. rewrite Hp, Ht. simpl.
    unfold dict_update. apply lookup_union_Some_l.
    rewrite He, foldl_app. simpl.
    rewrite foldl_apply_extension_skip by exact H2.
    unfold apply_extension, dict_update. simpl. by apply lookup_union_Some_l.
  - apply foldl_merge_class_spec.
  - unfold has_no_mapping, ensure_all_mappings, bind. fold merged.
    pose proof (get_mappings_trace self w) as Hg.
    destruct (get_mappings self w) as [w1 [e|m]]; simpl in *; [discriminate|].
    intros Hm. rewrite Hm. simpl.
    unfold es_request, ret. apply new_calls_app.
    destruct (answer _ w1); simpl; rewrite Hg, <- app_assoc; reflexivity.
Qed.


(** ** Indexing an object *)

Lemma index_object_projected self (obj : Indexable) (id : pyval) w :
  document_fields obj !! "_id" = Some id →
  index_object self obj w = index_document self id (next_loc w) (projected obj w).
Proof.
  intros Hid. unfold index_object, elastic_document, dict_pop, bind, alloc, load, store.
  simpl. rewrite lookup_total_insert_eq, Hid. reflexivity.
Qed.

Lemma index_object_no_id self (obj : Indexable) w :
  document_fields obj !! "_id" = None →
  (index_object self obj w).2 = inl (KeyError "_id") ∧
  trace (index_object self obj w).1 = trace w ∧
  eng (index_object self obj w).1 = eng w ∧
  txn (index_object self obj w).1 = txn w.
Proof.
  intros Hid. unfold index_object, elastic_document, dict_pop, bind, alloc, load, store.
  simpl. rewrite lookup_total_insert_eq, Hid. simpl. auto.
Qed.


(** ** References held by the queue *)

Lemma run_call_next_loc self (args : call_args) w :
  next_loc (run_call self args w).1 = next_loc w ∧
  txn (run_call self args w).1 = txn w.
Proof.
  destruct (disable_indexing self) eqn:Hd; destruct args as [id doc|id safe]; simpl.
  - unfold index_document_func. rewrite Hd. by split.
  - unfold delete_document_func. rewrite Hd. by split.
  - rewrite index_document_func_enabled by exact Hd. simpl.
    case_bool_decide; by split.
  - rewrite delete_document_func_enabled by exact Hd. by split.
Qed.

Lemma queue_allocated_mono w w' :
  pending w' = pending w → (next_loc w ≤ next_loc w')%nat →
  queue_allocated w → queue_allocated w'.
Proof.
  unfold queue_allocated. intros -> Hn Hq. eapply Forall_impl; [exact Hq|].
  intros d. simpl. destruct (d_call d); [lia|auto].
Qed.

Lemma queue_allocated_invoke self (args : call_args) w :
  match args with IndexArgs _ doc => doc < next_loc w | DeleteArgs _ _ => True end →
  queue_allocated w → queue_allocated (invoke self args w).1.
Proof.
  intros Ha Hq.
  assert (invoke self args = transactional run_call self args) as ->
    by (destruct args; reflexivity).
  unfold transactional. destruct (use_transaction self).
  - unfold queue_allocated, register, pending in *. simpl.
    destruct (txn w); simpl in *.
    + apply Forall_app. split; [assumption|]. by constructor.
    + by constructor.
  - destruct (run_call_next_loc self args w) as (Hn & Hx).
    apply (queue_allocated_mono w); [unfold pending; by rewrite Hx|lia|assumption].
Qed.

(** Indexing an object keeps every queued reference allocated. *)
Lemma queue_allocated_index_object self (obj : Indexable) w :
  queue_allocated w → queue_allocated (index_object self obj w).1.
Proof.
  intros Hq. destruct (document_fields obj !! "_id") as [id|] eqn:Hid.
  - rewrite (index_object_projected self obj id w Hid).
    apply (queue_allocated_invoke self (IndexArgs id (next_loc w))); [simpl; lia|].
    apply (queue_allocated_mono w); [reflexivity|simpl; lia|assumption].
  - unfold index_object, elastic_document, dict_pop, bind, alloc, load, store.
    simpl. rewrite lookup_total_insert_eq, Hid. simpl.
    apply (queue_allocated_mono w); [reflexivity|simpl; lia|assumption].
Qed.

Lemma run_call_heap_other self (args : call_args) w (l : loc) :
  match args with IndexArgs _ doc => doc ≠ l | DeleteArgs _ _ => True end →
  heap (run_call self args w).1 !! l = heap w !! l.
Proof.
  intros Hl. destruct (disable_indexing self) eqn:Hd; destruct args as [id doc|id safe]; simpl.
  - unfold index_document_func. rewrite Hd. reflexivity.
  - unfold delete_document_func. rewrite Hd. reflexivity.
  - rewrite index_document_func_enabled by exact Hd. simpl.
    case_bool_decide; simpl; [by rewrite lookup_insert_ne|reflexivity].
  - rewrite delete_document_func_enabled by exact Hd. reflexivity.
Qed.

Lemma run_call_trace_ext self (args : call_args) w :
  ∃ calls, trace (run_call self args w).1 = trace w ++ calls.
Proof.
  destruct (disable_indexing self) eqn:Hd.
  - exists []. rewrite app_nil_r.
    destruct args; simpl; unfold index_document_func, delete_document_func;
      rewrite Hd; reflexivity.
  - destruct (run_call_enabled self args w Hd) as (entry & Ht & _). eauto.
Qed.

Lemma apply_all_app (q1 q2 : list Deferred) w :
  apply_all (q1 ++ q2) w = bind (apply_all q1) (λ _, apply_all q2) w.
Proof.
  revert w. induction q1 as [|d q1 IH]; intros w; simpl; [reflexivity|].
  unfold bind in *. destruct (run_deferred d w) as [w1 [e|[]]]; [reflexivity|apply IH].
Qed.

Lemma apply_all_heap_other (q : list Deferred) w (l : loc) :
  Forall (λ d, match d_call d with
               | IndexArgs _ doc => doc ≠ l
               | DeleteArgs _ _ => True
               end) q →
  heap (apply_all q w).1 !! l = heap w !! l.
Proof.
  intros H. revert w. induction H as [|d q Hd _ IH]; intros w; simpl; [reflexivity|].
  unfold bind, run_deferred.
  pose proof (run_call_heap_other (d_client d) (d_call d) w l Hd) as Hh.
  destruct (run_call (d_client d) (d_call d) w) as [w1 [e|[]]]; simpl in *;
    [exact Hh|]. rewrite IH. exact Hh.
Qed.

Lemma apply_all_trace_ext (q : list Deferred) w :
  ∃ calls, trace (apply_all q w).1 = trace w ++ calls.
Proof.
  revert w. induction q as [|d q IH]; intros w; simpl.
  - exists []. by rewrite app_nil_r.
  - unfold bind, run_deferred.
    destruct (run_call_trace_ext (d_client d) (d_call d) w) as (c1 & H1).
    destruct (run_call (d_client d) (d_call d) w) as [w1 [e|[]]]; simpl in *; [eauto|].
    destruct (IH w1) as (c2 & H2). exists (c1 ++ c2).
    rewrite H2, H1, <- app_assoc. reflexivity.
Qed.

(** C9: [index_object] pops ["_id"] from the document the codec produced
    and indexes under that id; the pipeline marker, when the document
    has one, is popped as well and names the pipeline of the index call;
    the body sent is the document without the two reserved keys.  The
    call is made at once by a client that is not transactional; by one
    that is, it is made at commit, after the calls of the operations
    queued before, unless one of these fails.  A document without
    ["_id"] raises [KeyError] and nothing is sent. *)
Theorem index_object_strips_reserved_keys self (obj : Indexable) w :
  let fields := document_fields obj in
  let body := delete "__pipeline__" (delete "_id" fields) in
  body !! "_id" = None ∧ body !! "__pipeline__" = None ∧
  (fields !! "_id" = None →
     (index_object self obj w).2 = inl (KeyError "_id") ∧
     trace (index_object self obj w).1 = trace w ∧
     txn (index_object self obj w).1 = txn w) ∧
  (∀ id : pyval, fields !! "_id" = Some id → disable_indexing self = false →
     let call := (es self, es_index (index self) body id (fields !! "__pipeline__")) in
     (use_transaction self = false →
        new_calls w (index_object self obj w).1 = [call]) ∧
     (use_transaction self = true → queue_allocated w →
        let w1 := (index_object self obj w).1 in
        let earlier := apply_all (pending w) (clear_txn w1) in
        new_calls w w1 = [] ∧
        new_calls w (commit w1).1
          = new_calls w earlier.1
              ++ match earlier.2 with inr _ => [call] | inl _ => [] end)).
Proof.
  intros fields body.
  split; [|split; [|split]].
  - unfold body. rewrite lookup_delete_ne by discriminate. apply lookup_delete_eq.
  - apply lookup_delete_eq.
  - intros Hid. destruct (index_object_no_id self obj w Hid) as (? & ? & ? & ?). auto.
  - intros id Hid Hd call.
    rewrite (index_object_projected self obj id w Hid).
    unfold index_document, transactional.
    assert (∀ w2, heap w2 !! next_loc w = Some (delete "_id" fields) →
              trace (run_call self (IndexArgs id (next_loc w)) w2).1
                = trace w2 ++ [call]) as Hrun.
    { intros w2 Hh. simpl. rewrite index_document_func_enabled by exact Hd.
      rewrite (lookup_total_correct _ _ _ Hh). unfold call, body. simpl.
      rewrite lookup_delete_ne by discriminate.
      case_bool_decide; reflexivity. }
    split.
    + intros ->. apply new_calls_app. rewrite Hrun; [reflexivity|].
      simpl. apply lookup_insert_eq.
    + intros -> Hq. simpl.
      split; [apply (new_calls_app w _ []); simpl; by rewrite app_nil_r|].
      unfold commit, register, pending. simpl.
      set (op := {| d_client := self; d_call := IndexArgs id (next_loc w) |}).
      assert (match txn w with Some q => q ++ [op] | None => [op] end
              = pending w ++ [op]) as -> by (unfold pending; by destruct (txn w)).
      fold (pending w).
      rewrite apply_all_app. unfold bind, run_deferred. simpl apply_all.
      unfold bind, run_deferred. simpl d_client. simpl d_call.
      set (w1 := clear_txn _).
      pose proof (apply_all_heap_other (pending w) w1 (next_loc w)) as Hh.
      destruct (apply_all_trace_ext (pending w) w1) as (earlier & He).
      destruct (apply_all (pending w) w1) as [w2 [e|[]]]; simpl in Hh, He; simpl.
      { by rewrite app_nil_r. }
      rewrite (new_calls_app w w2 earlier He). apply new_calls_app.
      assert (trace (run_call self (IndexArgs id (next_loc w)) w2).1
              = (trace w ++ earlier) ++ [call]) as Ht.
      { rewrite Hrun, He; [reflexivity|]. rewrite Hh; [apply lookup_insert_eq|].
        eapply Forall_impl; [exact Hq|]. intros d. simpl.
        destruct (d_call d); [lia|auto]. }
      rewrite <- app_assoc in Ht. rewrite <- Ht. simpl run_call.
      destruct (index_document_func self id (next_loc w) w2) as [w3 [e|[]]];
        reflexivity.
Qed.

End Properties.

(** ** The theorems at concrete inputs *)

Import Examples.

(** The scenario of the specification: after an abort the engine is as it
    was and no call was made; after a commit the document was indexed and
    then deleted, in that order, and is absent. *)
Example scenario_abort_commit :
  pending scenario
    = [ {| d_client := client_tx; d_call := IndexArgs (PStr "doc1") 0 |};
        {| d_client := client_tx; d_call := DeleteArgs (PStr "doc1") false |} ] ∧
  trace scenario = [] ∧
  eng (abort scenario).1 = one_index "idx" ∅ ∅ ∧
  trace (abort scenario).1 = [] ∧
  (commit scenario).2 = inr tt ∧
  trace (commit scenario).1
    = [ (0, es_index "idx" {[ "title" := PStr "a" ]} (PStr "doc1") None);
        (0, es_delete "idx" (PStr "doc1")) ] ∧
  eng (commit scenario).1 = one_index "idx" ∅ ∅.
Proof. vm_compute. repeat split. Qed.



(** Objects and documents submitted to a client with indexing disabled. *)
Lemma disabled_indexing_reaches_no_engine_witness :
  let script := [ IndexObjects [article; nameless; article];
                  DeleteObject article false;
                  IndexDocument (PStr "doc2") 0;
                  DeleteDocument (PStr "doc1") true ] in
  let w1 := run_script client_off script empty_index in
  disable_indexing client_off = true ∧
  queue_indexing_disabled true empty_index ∧
  (trace w1 = trace empty_index ∧ eng w1 = eng empty_index) ∧
  (trace (commit w1).1 = trace empty_index ∧ eng (commit w1).1 = eng empty_index) ∧
  (trace (abort w1).1 = trace empty_index ∧ eng (abort w1).1 = eng empty_index) ∧
  doc_mutation_calls (new_calls empty_index (commit w1).1) = [].
Proof.
  intros script w1.
  assert (queue_indexing_disabled true empty_index) as Hq by constructor.
  split; [reflexivity|]. split; [exact Hq|].
  exact (disabled_indexing_reaches_no_engine client_off script empty_index eq_refl Hq).
Defined.

(** Deleting from an empty index, unsafe and safe, at once and at commit:
    the engine is asked each time. *)
Lemma delete_document_absent_raises_iff_unsafe_witness :
  let request := (0, es_delete "idx" (PStr "doc1")) in
  disable_indexing client_now = false ∧
  answer (es_delete "idx" (PStr "doc1")) empty_index = inl NotFoundError ∧
  new_calls empty_index (delete_document client_now (PStr "doc1") false empty_index).1
    = [request] ∧
  (delete_document client_now (PStr "doc1") false empty_index).2 = inl NotFoundError ∧
  new_calls empty_index (delete_document client_now (PStr "doc1") true empty_index).1
    = [request] ∧
  (delete_document client_now (PStr "doc1") true empty_index).2 = inr tt ∧
  new_calls empty_index (delete_document client_tx (PStr "doc1") false empty_index).1
    = [] ∧
  new_calls empty_index
    (commit (delete_document client_tx (PStr "doc1") false empty_index).1).1
    = [request] ∧
  (commit (delete_document client_tx (PStr "doc1") false empty_index).1).2
    = inl NotFoundError.
Proof.
  intros request.
  split; [reflexivity|]. split; [reflexivity|].
  destruct (delete_document_absent_raises_iff_unsafe client_now (PStr "doc1") false
              empty_index eq_refl eq_refl) as (_ & Hcall & Hf & _ & Hnow & _).
  destruct (delete_document_absent_raises_iff_unsafe client_now (PStr "doc1") true
              empty_index eq_refl eq_refl) as (_ & Hcall' & _ & Ht & Hnow' & _).
  destruct (delete_document_absent_raises_iff_unsafe client_tx (PStr "doc1") false
              empty_index eq_refl eq_refl) as (_ & _ & Hf' & _ & _ & Htx).
  destruct (Htx eq_refl eq_refl) as (_ & Hquiet & Hsent & Hout).
  split; [rewrite (Hnow eq_refl); exact Hcall|].
  split; [rewrite (Hnow eq_refl); apply Hf; reflexivity|].
  split; [rewrite (Hnow' eq_refl); exact Hcall'|].
  split; [rewrite (Hnow' eq_refl); apply Ht; reflexivity|].
  split; [exact Hquiet|]. split; [exact Hsent|].
  rewrite Hout. apply Hf'. reflexivity.
Defined.

(** [ensure_index] where the index exists and where it does not. *)
Lemma ensure_index_no_recreate_witness :
  answer (indices_exists "idx") empty_index = inr (PBool true) ∧
  ensure_index client_now false PNone empty_index
    = (after_request 0 (indices_exists "idx") empty_index, inr tt) ∧
  create_or_delete_index_calls
    (new_calls empty_index (ensure_index client_now false PNone empty_index).1) = [] ∧
  answer (indices_exists "idx") no_index = inr (PBool false) ∧
  new_calls no_index (ensure_index client_now false PNone no_index).1
    = [ (0, indices_exists "idx");
        (0, indices_create "idx" {[ "settings" := PDict CREATE_INDEX_SETTINGS ]}) ].
Proof.
  destruct (ensure_index_no_recreate client_now PNone empty_index (PBool true) eq_refl)
    as (Hexists & _).
  destruct (ensure_index_no_recreate client_now PNone no_index (PBool false) eq_refl)
    as (_ & Habsent & _).
  destruct (Hexists eq_refl) as (Hrun & Hnone).
  split; [reflexivity|]. split; [exact Hrun|]. split; [exact Hnone|].
  split; [reflexivity|]. exact (Habsent eq_refl).
Defined.

(** Against C4 as stated: the caller gives settings, the empty dictionary,
    and the absent index is created with the default settings instead. *)
Lemma ensure_index_empty_settings_counterexample :
  let given := PDict ∅ in
  new_calls no_index (ensure_index client_now false given no_index).1
    = [ (0, indices_exists "idx");
        (0, indices_create "idx" {[ "settings" := PDict CREATE_INDEX_SETTINGS ]}) ] ∧
  PDict CREATE_INDEX_SETTINGS ≠ given.
Proof.
  split; [vm_compute; reflexivity|].
  intros H.
  apply (f_equal (λ v, match v with PDict d => d !! "index" | _ => None end)) in H.
  vm_compute in H. discriminate.
Qed.

(** [ensure_mapping] and [ensure_all_mappings] on an index with a mapping
    and on one without. *)
Lemma mapping_pushed_only_when_absent_witness :
  let registry := [class_A; class_B'; class_C] in
  has_mapping client_now mapped_index = true ∧
  put_mapping_calls
    (new_calls mapped_index (ensure_mapping client_now class_A false mapped_index).1) = [] ∧
  put_mapping_calls
    (new_calls mapped_index (ensure_all_mappings client_now registry false mapped_index).1)
    = [] ∧
  has_no_mapping client_now empty_index = true ∧
  put_mapping_calls
    (new_calls empty_index (ensure_mapping client_now class_A false empty_index).1)
    = [ (0, indices_put_mapping "idx" {[ "status" := keyword ]}) ].
Proof.
  intros registry.
  destruct (mapping_pushed_only_when_absent client_now class_A registry mapped_index)
    as (Hhas & _).
  destruct (mapping_pushed_only_when_absent client_now class_A registry empty_index)
    as (_ & _ & _ & Hnone).
  assert (has_mapping client_now mapped_index = true) as H1 by (vm_compute; reflexivity).
  assert (has_no_mapping client_now empty_index = true) as H2 by (vm_compute; reflexivity).
  destruct (Hhas H1) as (Hone & Hall). destruct (Hnone H2) as (Hpush & _).
  split; [exact H1|]. split; [exact Hone|]. split; [exact Hall|].
  split; [exact H2|]. exact Hpush.
Defined.

(** Class B' has a mapping of its own, and its extension overrides the
    ["status"] that class A set. *)
Lemma merged_mapping_reflects_extension_witness :
  let registry := [class_A] ++ class_B' :: [class_C] in
  let merged := foldl merge_class ∅ registry in
  class_A.(elastic_mapping) !! "status" = Some keyword ∧
  merged !! "status" = Some text ∧
  new_calls empty_index (ensure_all_mappings client_now registry false empty_index).1
    = [ (0, indices_get_mapping "idx"); (0, indices_put_mapping "idx" merged) ].
Proof.
  intros registry merged.
  assert (Forall (λ cls, class_contribution cls !! "status" = None) [class_C]) as Hafter
    by (repeat constructor).
  destruct (merged_mapping_reflects_extension client_now false empty_index
              [class_A] [class_C] class_B' [] [] "status-extension"
              {[ "status" := text ]} "status" text
              eq_refl eq_refl eq_refl eq_refl (List.Forall_nil _) Hafter)
    as (Hk & _ & Hpush).
  split; [reflexivity|]. split; [exact Hk|].
  apply Hpush. vm_compute. reflexivity.
Defined.

(** Against C6 as stated: class B provides a mapping and its extension sets
    ["status"], which class A set before; B's own descriptor is empty, the
    extension is never merged, and the mapping pushed keeps A's value. *)
Lemma extension_of_empty_class_counterexample :
  let registry := [class_A; class_B; class_C] in
  provides_IElasticMapping class_B = true ∧
  mapping_extensions class_B = [("status-extension", {[ "status" := text ]})] ∧
  foldl spec_merge_class ∅ registry !! "status" = Some text ∧
  new_calls empty_index (ensure_all_mappings client_now registry false empty_index).1
    = [ (0, indices_get_mapping "idx");
        (0, indices_put_mapping "idx" {[ "status" := keyword; "title" := text ]}) ] ∧
  keyword ≠ text.
Proof.
  split; [reflexivity|]. split; [reflexivity|].
  split; [vm_compute; reflexivity|]. split; [vm_compute; reflexivity|].
  intros H.
  apply (f_equal (λ v, match v with PDict d => d !! "type" | _ => None end)) in H.
  vm_compute in H. discriminate.
Qed.

(** Against C8 as stated: the pair names the index ["other"], and the
    document comes from the client's index ["idx"]. *)
Lemma get_ignores_named_index_counterexample :
  let pair := GetSeq [PStr "other"; PStr "1"] in
  answer (es_get "other" (PStr "1")) two_indexes
    = inr (PDict {[ "_index" := PStr "other"; "_id" := PStr "1";
                    "_source" := PDict {[ "title" := PStr "b" ]} ]}) ∧
  new_calls two_indexes (get client_tx pair two_indexes).1 = [ (0, es_get "idx" (PStr "1")) ] ∧
  (get client_tx pair two_indexes).2 = inr (MkDotDict (PDict {[ "title" := PStr "a" ]})) ∧
  dotdict_get (MkDotDict (PDict {[ "title" := PStr "a" ]})) "title" ≠ Some (PStr "b").
Proof.
  split; [vm_compute; reflexivity|]. split; [vm_compute; reflexivity|].
  split; [vm_compute; reflexivity|]. vm_compute. discriminate.
Qed.

(** Indexing an object whose document names a pipeline, and one whose
    document has no id. *)
Lemma index_object_strips_reserved_keys_witness :
  let body := {[ "title" := PStr "a" ]} in
  let call := (0, es_index "idx" body (PStr "doc1") (Some (PStr "attachment"))) in
  document_fields article !! "_id" = Some (PStr "doc1") ∧
  queue_allocated empty_index ∧
  new_calls empty_index (index_object client_now article empty_index).1 = [call] ∧
  new_calls empty_index (index_object client_tx article empty_index).1 = [] ∧
  new_calls empty_index (commit (index_object client_tx article empty_index).1).1 = [call] ∧
  (index_object client_now nameless empty_index).2 = inl (KeyError "_id").
Proof.
  intros body call.
  assert (queue_allocated empty_index) as Hq by constructor.
  destruct (index_object_strips_reserved_keys client_now article empty_index)
    as (_ & _ & _ & Hnow).
  destruct (index_object_strips_reserved_keys client_tx article empty_index)
    as (_ & _ & _ & Htx).
  destruct (index_object_strips_reserved_keys client_now nameless empty_index)
    as (_ & _ & Hnone & _).
  destruct (Hnow (PStr "doc1") eq_refl eq_refl) as (Himmediate & _).
  destruct (Htx (PStr "doc1") eq_refl eq_refl) as (_ & Hdeferred).
  destruct (Hdeferred eq_refl Hq) as (Hquiet & Hcommit).
  assert (delete "__pipeline__" (delete "_id" (document_fields article)) = body) as Hbody
    by (vm_compute; reflexivity).
  split; [reflexivity|]. split; [exact Hq|]. split; [|split; [|split]].
  - rewrite (Himmediate eq_refl), Hbody. reflexivity.
  - exact Hquiet.
  - rewrite Hcommit, Hbody. reflexivity.
  - destruct (Hnone eq_refl) as (Hk & _). exact Hk.
Defined.

(** On the reference engine, deleting an index that is absent raises
    [NotFoundError] after the one delete call. *)
Example delete_index_absent :
  (delete_index client_now no_index).2 = inl NotFoundError ∧
  trace (delete_index client_now no_index).1 = [ (0, indices_delete "idx") ].
Proof. vm_compute. split; reflexivity. Qed.

(** A block that raises: the connection is closed and the exception goes
    on. *)
Example with_client_block_raises :
  let block (h : Conn) := es_request (E := mem_engine) h (es_get "idx" (PStr "1")) in
  (with_client client_now block empty_index).2 = inl NotFoundError ∧
  trace (with_client client_now block empty_index).1
    = [ (0, es_get "idx" (PStr "1")); (0, es_close) ].
Proof. vm_compute. split; reflexivity. Qed.

(** On the reference engine [ensure_index] is idempotent: the first call
    creates the index, the second only asks whether it exists. *)
Example ensure_index_twice :
  let w1 := (ensure_index client_now false PNone no_index).1 in
  new_calls w1 (ensure_index client_now false PNone w1).1 = [ (0, indices_exists "idx") ] ∧
  eng (ensure_index client_now false PNone w1).1 = eng w1.
Proof. vm_compute. split; reflexivity. Qed.

(** * Further properties of the client *)

Section MoreProperties.
Context {E : Engine}.
Implicit Types (w : World (E := E)) (self : ElasticClient).

(** ** [ensure_index] *)

(** X1: with [recreate] set and an index that exists, [ensure_index] asks,
    deletes and creates, in that order; when the delete call raises, its
    exception is the outcome and no create call follows; when the create
    call raises after the delete, its exception is the outcome and nothing
    is done to restore the index. *)
Theorem ensure_index_recreate_existing self (settings : pyval) w (v : pyval) :
  answer (indices_exists (index self)) w = inr v →
  truthy v = true →
  let ask := indices_exists (index self) in
  let remove := indices_delete (index self) in
  let create := indices_create (index self)
                  {[ "settings" := py_or settings (PDict CREATE_INDEX_SETTINGS) ]} in
  let w1 := after_request (es self) ask w in
  let w2 := after_request (es self) remove w1 in
  (∀ e, answer remove w1 = inl e →
     ensure_index self true settings w = (w2, inl e) ∧
     new_calls w w2 = [(es self, ask); (es self, remove)]) ∧
  (∀ r, answer remove w1 = inr r →
     (ensure_index self true settings w).1 = after_request (es self) create w2 ∧
     new_calls w (ensure_index self true settings w).1
       = [(es self, ask); (es self, remove); (es self, create)] ∧
     (ensure_index self true settings w).2
       = match answer create w2 with inl e => inl e | inr _ => inr tt end).
Proof.
  intros Hv Ht ask remove create w1 w2.
  unfold ensure_index, bind, es_request, ret. rewrite Hv, Ht. simpl.
  fold ask w1 remove. split.
  - intros e He. rewrite He. simpl. split; [reflexivity|].
    apply new_calls_app. simpl. rewrite <- app_assoc. reflexivity.
  - intros r Hr. rewrite Hr. simpl. fold w2 create.
    destruct (answer create w2); simpl; (split; [reflexivity|]);
      (split; [|reflexivity]); apply new_calls_app; simpl;
      rewrite <- !app_assoc; reflexivity.
Qed.

(** X2: an index that the engine reports absent is never deleted, whatever
    [recreate] is: [ensure_index] asks and creates, and the outcome is that
    of the create call.  When the question itself raises, the exception is
    the outcome and no other call is made. *)
Theorem ensure_index_absent_or_failing self (recreate : bool) (settings : pyval) w :
  let ask := indices_exists (index self) in
  let create := indices_create (index self)
                  {[ "settings" := py_or settings (PDict CREATE_INDEX_SETTINGS) ]} in
  let w1 := after_request (es self) ask w in
  (∀ e, answer ask w = inl e →
     ensure_index self recreate settings w = (w1, inl e) ∧
     new_calls w w1 = [(es self, ask)]) ∧
  (∀ v, answer ask w = inr v → truthy v = false →
     new_calls w (ensure_index self recreate settings w).1
       = [(es self, ask); (es self, create)] ∧
     (ensure_index self recreate settings w).2
       = match answer create w1 with inl e => inl e | inr _ => inr tt end).
Proof.
  intros ask create w1.
  unfold ensure_index, bind, es_request, ret. split.
  - intros e He. unfold ask in He. rewrite He. fold ask w1. split; [reflexivity|].
    apply new_calls_app. reflexivity.
  - intros v Hv Ht. unfold ask in Hv. rewrite Hv, Ht. rewrite orb_true_r. simpl.
    fold ask w1 create.
    destruct (answer create w1); simpl; (split; [|reflexivity]);
      apply new_calls_app; simpl; rewrite <- app_assoc; reflexivity.
Qed.

(** ** Mappings *)

(** X3: with [recreate] set, [ensure_mapping] and [ensure_all_mappings]
    push a mapping whenever [get_mappings] returns, over a mapping that
    exists as well; the body is the class's mapping, respectively the
    merged one, and holds nothing of the mapping read. *)
Theorem mapping_pushed_when_forced self (cls : MappedClass)
    (registry : list MappedClass) w (current : pyval) :
  (get_mappings self w).2 = inr current →
  new_calls w (ensure_mapping self cls true w).1
    = [(es self, indices_get_mapping (index self));
       (es self, indices_put_mapping (index self) (elastic_mapping cls))] ∧
  new_calls w (ensure_all_mappings self registry true w).1
    = [(es self, indices_get_mapping (index self));
       (es self, indices_put_mapping (index self) (foldl merge_class ∅ registry))].
Proof.
  intros Hg. unfold ensure_mapping, ensure_all_mappings, bind.
  pose proof (get_mappings_trace self w) as Ht.
  destruct (get_mappings self w) as [w1 [e|m]]; simpl in *; [discriminate|].
  rewrite orb_true_r. unfold es_request, ret.
  split; apply new_calls_app;
    destruct (answer _ w1); simpl; rewrite Ht, <- app_assoc; reflexivity.
Qed.

(** X4: when reading the mappings fails, nothing is pushed, with [recreate]
    set as well, and the exception is the outcome.  This is so when the
    engine raises, and when its answer has no entry under the client's
    index name, which raises [KeyError]. *)
Theorem mapping_not_pushed_when_unreadable self (cls : MappedClass)
    (registry : list MappedClass) (recreate : bool) w (e : exn) :
  (get_mappings self w).2 = inl e →
  let w1 := after_request (es self) (indices_get_mapping (index self)) w in
  ensure_mapping self cls recreate w = (w1, inl e) ∧
  ensure_all_mappings self registry recreate w = (w1, inl e) ∧
  new_calls w w1 = [(es self, indices_get_mapping (index self))] ∧
  (∀ raw : dict,
     answer (indices_get_mapping (index self)) w = inr (PDict raw) →
     raw !! index self = None → e = KeyError (index self)).
Proof.
  intros Hg w1. unfold ensure_mapping, ensure_all_mappings, bind.
  pose proof (get_mappings_world self w) as Hw. fold w1 in Hw.
  split; [|split; [|split]].
  - destruct (get_mappings self w) as [w' [e'|m]]; simpl in *; congruence.
  - destruct (get_mappings self w) as [w' [e'|m]]; simpl in *; congruence.
  - apply new_calls_app. reflexivity.
  - intros raw Ha Hr. revert Hg.
    unfold get_mappings, bind, es_request, subscript, raise. rewrite Ha, Hr. simpl.
    congruence.
Qed.

(** ** Deleting *)

(** X5: [safe] covers [NotFoundError] only: any other exception of the
    delete call is the outcome of [delete_document] whether [safe] is set or
    not, and a delete call that returns makes the deletion return. *)
Theorem delete_document_other_outcomes self (id : pyval) (safe : bool) w :
  disable_indexing self = false →
  use_transaction self = false →
  let request := es_delete (index self) id in
  (delete_document self id safe w).1 = after_request (es self) request w ∧
  (∀ e, answer request w = inl e → e ≠ NotFoundError →
     (delete_document self id safe w).2 = inl e) ∧
  (∀ r, answer request w = inr r → (delete_document self id safe w).2 = inr tt).
Proof.
  intros Hd Hu request. unfold delete_document, transactional. rewrite Hu. simpl.
  split; [by apply delete_document_func_enabled|].
  unfold delete_document_func, try_except, bind, es_request, ret, raise.
  rewrite Hd. fold request. split.
  - intros e He Hne. rewrite He. simpl. destruct e; try reflexivity. congruence.
  - intros r Hr. rewrite Hr. reflexivity.
Qed.

(** X6: [delete_object] only needs the id of the document the codec
    produced: with an ["_id"] it is [delete_document] for that id, and a
    client that is not transactional makes the one delete call; without
    ["_id"] it raises [KeyError], with [safe] set as well, and nothing is
    called or queued. *)
Theorem delete_object_uses_id_only self (obj : Indexable) (safe : bool) w :
  (∀ id, document_fields obj !! "_id" = Some id →
     delete_object self obj safe w = delete_document self id safe (projected obj w) ∧
     (disable_indexing self = false → use_transaction self = false →
        new_calls w (delete_object self obj safe w).1
          = [(es self, es_delete (index self) id)])) ∧
  (document_fields obj !! "_id" = None →
     (delete_object self obj safe w).2 = inl (KeyError "_id") ∧
     trace (delete_object self obj safe w).1 = trace w ∧
     eng (delete_object self obj safe w).1 = eng w ∧
     txn (delete_object self obj safe w).1 = txn w).
Proof.
  split.
  - intros id Hid.
    assert (delete_object self obj safe w
            = delete_document self id safe (projected obj w)) as Heq.
    { unfold delete_object, elastic_document, dict_pop, bind, alloc, load, store.
      simpl. rewrite lookup_total_insert_eq, Hid. reflexivity. }
    split; [exact Heq|]. intros Hd Hu. rewrite Heq.
    unfold delete_document, transactional. rewrite Hu. simpl.
    rewrite delete_document_func_enabled by exact Hd.
    apply new_calls_app. reflexivity.
  - intros Hid.
    unfold delete_object, elastic_document, dict_pop, bind, alloc, load, store.
    simpl. rewrite lookup_total_insert_eq, Hid. simpl. auto.
Qed.

(** ** Indexing *)

(** X7: [index_document] takes the pipeline marker out of the caller's own
    dictionary before it calls the engine.  So after a call on a client that
    is not transactional the dictionary has lost the marker, whether the
    index call returned or raised, and a second call with the same
    dictionary sends the same body without pipeline. *)
Theorem index_document_consumes_marker self (id : pyval) (doc : loc) w
    (p : pyval) :
  disable_indexing self = false →
  use_transaction self = false →
  (heap w !!! doc) !! "__pipeline__" = Some p →
  let body := delete "__pipeline__" (heap w !!! doc) in
  let w1 := (index_document self id doc w).1 in
  new_calls w w1 = [(es self, es_index (index self) body id (Some p))] ∧
  heap w1 !!! doc = body ∧
  new_calls w1 (index_document self id doc w1).1
    = [(es self, es_index (index self) body id None)].
Proof.
  intros Hd Hu Hp body w1.
  assert (w1 = after_request (es self) (es_index (index self) body id (Some p))
                 (store doc body w).1) as Hw1.
  { unfold w1, index_document, transactional. rewrite Hu. simpl.
    rewrite index_document_func_enabled by exact Hd. simpl.
    rewrite Hp. rewrite bool_decide_eq_true_2 by eauto. reflexivity. }
  assert (heap w1 !!! doc = body) as Hh
    by (rewrite Hw1; simpl; apply lookup_total_insert_eq).
  split; [|split].
  - apply new_calls_app. rewrite Hw1. reflexivity.
  - exact Hh.
  - apply new_calls_app. unfold index_document, transactional. rewrite Hu. simpl.
    rewrite index_document_func_enabled by exact Hd. simpl. rewrite Hh.
    assert (body !! "__pipeline__" = None) as Hn by apply lookup_delete_eq.
    rewrite Hn. rewrite bool_decide_eq_false_2 by (intros [? ?]; discriminate).
    rewrite delete_id by exact Hn. reflexivity.
Qed.

(** X8: a document without pipeline marker is sent as it is, without
    pipeline, the caller's dictionary is not changed, and the outcome of
    [index_document] on a client that is not transactional is that of the
    index call: an exception of the engine is never swallowed. *)
Theorem index_document_plain self (id : pyval) (doc : loc) w :
  disable_indexing self = false →
  use_transaction self = false →
  (heap w !!! doc) !! "__pipeline__" = None →
  let request := es_index (index self) (heap w !!! doc) id None in
  (index_document self id doc w).1 = after_request (es self) request w ∧
  heap (index_document self id doc w).1 = heap w ∧
  (index_document self id doc w).2
    = match answer request w with inl e => inl e | inr _ => inr tt end.
Proof.
  intros Hd Hu Hp request.
  unfold index_document, transactional. rewrite Hu. simpl.
  assert ((index_document_func self id doc w).1 = after_request (es self) request w)
    as Hw.
  { rewrite index_document_func_enabled by exact Hd. simpl. rewrite Hp.
    rewrite bool_decide_eq_false_2 by (intros [? ?]; discriminate).
    rewrite delete_id by exact Hp. reflexivity. }
  split; [exact Hw|]. split; [rewrite Hw; reflexivity|].
  unfold index_document_func. rewrite Hd.
  unfold bind, load, es_index_request, es_request, ret. simpl. rewrite Hp.
  rewrite bool_decide_eq_false_2 by (intros [? ?]; discriminate). simpl.
  fold request. destruct (answer request w); reflexivity.
Qed.

(** X9: [index_objects] goes through the objects in order and stops at the
    first one that raises: the objects after it have no effect.  In
    particular an object whose document has no ["_id"] raises [KeyError]
    once the objects before it are done, and nothing more reaches the
    engine. *)
Theorem index_objects_stops_at_failure self (done rest : list Indexable)
    (obj : Indexable) w :
  (index_objects self done w).2 = inr tt →
  let w1 := (index_objects self done w).1 in
  (∀ e, (index_object self obj w1).2 = inl e →
     index_objects self (done ++ obj :: rest) w = index_object self obj w1) ∧
  (document_fields obj !! "_id" = None →
     (index_objects self (done ++ obj :: rest) w).2 = inl (KeyError "_id") ∧
     trace (index_objects self (done ++ obj :: rest) w).1 = trace w1) ∧
  (∀ r, (index_object self obj w1).2 = inr r →
     index_objects self (done ++ obj :: rest) w
       = index_objects self rest (index_object self obj w1).1).
Proof.
  revert w. induction done as [|first done IH]; intros w Hok w1; simpl in *.
  - unfold bind. unfold w1. simpl.
    assert (∀ e, (index_object self obj w).2 = inl e →
              match index_object self obj w with
              | (w', inl e) => (w', @inl exn unit e)
              | (w', inr _) => index_objects self rest w'
              end = index_object self obj w) as Hfail.
    { intros e He. destruct (index_object self obj w) as [w' [e'|[]]];
        simpl in *; [reflexivity|discriminate]. }
    split; [exact Hfail|]. split.
    + intros Hid. destruct (index_object_no_id self obj w Hid) as (Hk & Ht & _).
      rewrite (Hfail _ Hk). by split.
    + intros r Hr. destruct (index_object self obj w) as [w' [e'|[]]];
        simpl in *; [discriminate|reflexivity].
  - unfold bind in *. unfold w1.
    destruct (index_object self first w) as [w' [e'|[]]]; simpl in *; [discriminate|].
    apply IH. exact Hok.
Qed.

(** X10: a transactional client keeps the caller's dictionary, not a copy
    of it: what the commit sends is what the dictionary holds at commit, so
    a change the caller makes between the call and the commit is indexed.
    The unit of work is the one modelled from the specification. *)
Theorem deferred_index_sends_content_at_commit self (id : pyval) (doc : loc)
    (later : dict) w :
  disable_indexing self = false →
  use_transaction self = true →
  pending w = [] →
  let w1 := (index_document self id doc w).1 in
  let w2 := (store doc later w1).1 in
  new_calls w w2 = [] ∧
  new_calls w (commit w2).1
    = [(es self, es_index (index self) (delete "__pipeline__" later) id
                   (later !! "__pipeline__"))].
Proof.
  intros Hd Hu Hp w1 w2.
  assert (trace w2 = trace w) as Ht
    by (unfold w2, w1, index_document, transactional; rewrite Hu; reflexivity).
  assert (pending w2 = [ {| d_client := self; d_call := IndexArgs id doc |} ]) as Hq.
  { unfold w2, w1, index_document, transactional. rewrite Hu.
    unfold pending, register in *. simpl. destruct (txn w); simpl in *; by subst. }
  split; [apply (new_calls_app w w2 []); by rewrite app_nil_r|].
  unfold commit. rewrite Hq. simpl. unfold bind, run_deferred. simpl.
  pose proof (index_document_func_enabled self id doc (clear_txn w2) Hd) as Hw.
  cbv zeta in Hw. change (heap (clear_txn w2)) with (heap w2) in Hw.
  assert (heap w2 !!! doc = later) as Hh
    by (unfold w2; simpl; apply lookup_total_insert_eq).
  rewrite Hh in Hw.
  assert (trace (index_document_func self id doc (clear_txn w2)).1
          = trace w ++ [(es self, es_index (index self) (delete "__pipeline__" later) id
                                    (later !! "__pipeline__"))]) as Hcall.
  { rewrite Hw, <- Ht. case_bool_decide; reflexivity. }
  apply new_calls_app.
  destruct (index_document_func self id doc (clear_txn w2)) as [w3 [e|[]]];
    exact Hcall.
Qed.

(** ** Reading *)

(** X11: [get] makes no engine call for an argument it cannot read: a list
    or tuple that does not have exactly two items raises [ValueError], an
    object without [id] raises [AttributeError]; and an answer of the engine
    without ["_source"] raises [KeyError]. *)
Theorem get_rejects_unreadable self w :
  (∀ items : list pyval, length items ≠ 2 →
     get self (GetSeq items) w = (w, inl ValueError)) ∧
  get self (GetObj None) w = (w, inl AttributeError) ∧
  (∀ (id : pyval) (r : dict),
     answer (es_get (index self) id) w = inr (PDict r) → r !! "_source" = None →
     (get self (GetObj (Some id)) w).2 = inl (KeyError "_source")).
Proof.
  split; [|split].
  - intros items Hl. destruct items as [|a [|b [|c items]]]; simpl in Hl;
      try reflexivity. congruence.
  - reflexivity.
  - intros id r Ha Hr. unfold get, bind, es_request, subscript, ret, raise. simpl.
    rewrite Ha, Hr. reflexivity.
Qed.

(** ** Calls that are not decorated *)

Lemma only_calls_request w0 (h : Conn) (c : es_call) :
  keeps (only_calls_since w0) (es_request h c).
Proof.
  intros w (Hx & Hh & Hn & calls & Ht). repeat split; try assumption.
  exists (calls ++ [(h, c)]). simpl. rewrite Ht, <- app_assoc. reflexivity.
Qed.

Lemma only_calls_subscript w0 (v : pyval) (key : string) :
  keeps (only_calls_since w0) (subscript v key).
Proof.
  destruct v; simpl; try apply keeps_raise.
  destruct (d !! key); [apply keeps_ret|apply keeps_raise].
Qed.

Lemma only_calls_get_mappings w0 self : keeps (only_calls_since w0) (get_mappings self).
Proof.
  unfold get_mappings.
  apply keeps_bind; [apply only_calls_request|]. intros raw.
  apply keeps_bind; [apply only_calls_subscript|]. intros entry.
  apply only_calls_subscript.
Qed.

Lemma only_calls_run_admin w0 self (c : admin_call) :
  keeps (only_calls_since w0) (run_admin self c).
Proof.
  assert (∀ h r, keeps (only_calls_since w0) (bind (es_request h r) (λ _, ret tt)))
    as Hone.
  { intros h r. apply keeps_bind; [apply only_calls_request|].
    intros _. apply keeps_ret. }
  destruct c as [recreate settings| | |cls recreate|registry recreate|force| |obj|];
    simpl.
  - unfold ensure_index. apply keeps_bind; [apply only_calls_request|]. intros v.
    destruct (recreate || negb (truthy v)); [|apply keeps_ret].
    apply keeps_bind; [destruct (truthy v); [apply Hone|apply keeps_ret]|].
    intros _. apply Hone.
  - apply Hone.
  - apply keeps_bind; [apply only_calls_get_mappings|]. intros _. apply keeps_ret.
  - unfold ensure_mapping. apply keeps_bind; [apply only_calls_get_mappings|].
    intros m. destruct (negb (truthy m) || recreate); [apply Hone|apply keeps_ret].
  - unfold ensure_all_mappings. apply keeps_bind; [apply only_calls_get_mappings|].
    intros m. destruct (negb (truthy m) || recreate); [apply Hone|apply keeps_ret].
  - apply Hone.
  - apply Hone.
  - apply keeps_bind; [|intros _; apply keeps_ret]. unfold get.
    apply keeps_bind.
    + destruct obj as [[|a [|b [|c items]]]|[i|]];
        first [apply keeps_ret|apply keeps_raise].
    + intros doc_id. apply keeps_bind; [apply only_calls_request|]. intros r.
      apply keeps_bind; [apply only_calls_subscript|]. intros source. apply keeps_ret.
  - apply Hone.
Qed.

(** X12: the methods that are not decorated, index and mapping life
    cycle, flush, refresh, [get] and [close], look at neither
    [disable_indexing] nor [use_transaction]: two clients on the same
    connection and index behave alike, so a client with indexing disabled
    still creates and deletes indexes and pushes mappings.  They run at
    once, queue nothing and change no dictionary. *)
Theorem admin_calls_ignore_flags_and_queue self self' (c : admin_call) w :
  es self' = es self →
  index self' = index self →
  run_admin self' c w = run_admin self c w ∧
  txn (run_admin self c w).1 = txn w ∧
  heap (run_admin self c w).1 = heap w ∧
  ∃ calls, trace (run_admin self c w).1 = trace w ++ calls.
Proof.
  intros Hes Hidx. split.
  - destruct c; simpl;
      unfold ensure_index, delete_index, ensure_mapping,
        ensure_all_mappings, flush, refresh, get, close;
      unfold get_mappings; rewrite ?Hes, ?Hidx; reflexivity.
  - destruct (only_calls_run_admin w self c w) as (Hx & Hh & _ & Hc).
    + repeat split. exists []. by rewrite app_nil_r.
    + auto.
Qed.

(** ** The merged mapping *)

Lemma foldl_merge_class_lookup_None (k : string) (registry : list MappedClass)
    (acc : dict) :
  foldl merge_class acc registry !! k = None ↔
  acc !! k = None ∧ Forall (λ cls, class_contribution cls !! k = None) registry.
Proof.
  revert acc. induction registry as [|cls registry IH]; intros acc; simpl.
  - split; [intros H; by split|by intros [H _]].
  - rewrite IH, merge_class_contribution, lookup_union_None, Forall_cons. tauto.
Qed.

(** X13: the merged mapping has a key exactly when some class contributes
    it, a class contributing what [merge_class] takes from it; and the value
    of a key is that of the last class in the registry that contributes
    it. *)
Theorem merged_mapping_last_contributor (registry : list MappedClass) (k : string) :
  (foldl merge_class ∅ registry !! k = None ↔
   Forall (λ cls, class_contribution cls !! k = None) registry) ∧
  (∀ (before after : list MappedClass) (cls : MappedClass) (v : pyval),
     registry = before ++ cls :: after →
     class_contribution cls !! k = Some v →
     Forall (λ cls, class_contribution cls !! k = None) after →
     foldl merge_class ∅ registry !! k = Some v).
Proof.
  split.
  - rewrite foldl_merge_class_lookup_None. rewrite lookup_empty. tauto.
  - intros before after cls v -> Hv Hafter. rewrite foldl_app. simpl.
    rewrite foldl_merge_class_skip by exact Hafter.
    rewrite merge_class_contribution. by apply lookup_union_Some_l.
Qed.

Lemma merge_class_swap (acc : dict) (a b : MappedClass) :
  (∀ k va vb, class_contribution a !! k = Some va →
              class_contribution b !! k = Some vb → va = vb) →
  merge_class (merge_class acc a) b = merge_class (merge_class acc b) a.
Proof.
  intros Hc. rewrite !merge_class_contribution. apply map_eq. intros k.
  rewrite !lookup_union. specialize (Hc k).
  destruct (class_contribution a !! k) as [va|], (class_contribution b !! k) as [vb|],
    (acc !! k); simpl; try reflexivity;
    rewrite (Hc va vb eq_refl eq_refl); reflexivity.
Qed.

Lemma foldl_merge_class_permutation (registry registry' : list MappedClass) :
  registry ≡ₚ registry' →
  compatible_classes registry →
  ∀ acc, foldl merge_class acc registry = foldl merge_class acc registry'.
Proof.
  induction 1 as [|x l l' Hp IH|x y l|l l' l'' Hp1 IH1 Hp2 IH2]; intros Hc acc; simpl.
  - reflexivity.
  - apply IH. intros a b k va vb Ha Hb. apply Hc; set_solver.
  - f_equal. apply merge_class_swap. intros k va vb Ha Hb.
    eapply Hc; [| |exact Ha|exact Hb]; set_solver.
  - rewrite IH1 by exact Hc. apply IH2.
    intros a b k va vb Ha Hb. apply Hc; by rewrite Hp1.
Qed.

(** X14: the order of the registry does not matter as long as no two
    classes give different values to one key: the merged mapping of a
    permutation of the registry is the same. *)
Theorem merged_mapping_order_irrelevant (registry registry' : list MappedClass) :
  registry ≡ₚ registry' →
  compatible_classes registry →
  foldl merge_class ∅ registry = foldl merge_class ∅ registry'.
Proof. intros Hp Hc. by apply foldl_merge_class_permutation. Qed.

(** X15: for one class that provides a mapping and has no extension,
    [ensure_all_mappings] on the registry made of it does what
    [ensure_mapping] does for it. *)
Theorem ensure_all_mappings_single_class self (cls : MappedClass)
    (recreate : bool) w :
  provides_IElasticMapping cls = true →
  mapping_extensions cls = [] →
  ensure_all_mappings self [cls] recreate w = ensure_mapping self cls recreate w.
Proof.
  intros Hp He. unfold ensure_all_mappings, ensure_mapping. simpl.
  assert (merge_class ∅ cls = elastic_mapping cls) as ->; [|reflexivity].
  unfold merge_class, dict_truthy, dict_update. rewrite Hp, He. simpl.
  case_bool_decide as Hempty; simpl.
  - by rewrite Hempty.
  - by rewrite (right_id_L ∅ (∪)).
Qed.

(** X16: classes that do not provide a mapping, and classes whose own
    mapping is empty, add nothing, whatever their extensions hold; a
    registry made of such classes only, the empty one included, still has
    [ensure_all_mappings] push a mapping, the empty one, to an index
    without mapping. *)
Theorem ensure_all_mappings_nothing_to_merge self (registry : list MappedClass)
    (recreate : bool) w :
  Forall (λ cls, provides_IElasticMapping cls = false ∨ elastic_mapping cls = ∅)
         registry →
  has_no_mapping self w = true →
  foldl merge_class ∅ registry = ∅ ∧
  new_calls w (ensure_all_mappings self registry recreate w).1
    = [(es self, indices_get_mapping (index self));
       (es self, indices_put_mapping (index self) ∅)].
Proof.
  intros Hr Hn.
  assert (∀ acc : dict, foldl merge_class acc registry = acc) as Hacc.
  { induction Hr as [|cls registry Hcls _ IH]; intros acc; simpl; [reflexivity|].
    rewrite IH. unfold merge_class, dict_truthy.
    destruct Hcls as [->| ->]; [reflexivity|].
    destruct (provides_IElasticMapping cls); reflexivity. }
  pose proof (Hacc ∅) as Hm.
  split; [exact Hm|].
  revert Hn. unfold has_no_mapping, ensure_all_mappings, bind. rewrite Hm.
  pose proof (get_mappings_trace self w) as Hg.
  destruct (get_mappings self w) as [w1 [e|m]]; simpl in *; [discriminate|].
  intros ->. simpl. unfold es_request, ret. apply new_calls_app.
  destruct (answer _ w1); simpl; rewrite Hg, <- app_assoc; reflexivity.
Qed.

End MoreProperties.

(** ** Construction *)

Section ConstructionProperties.
Context {Timeout : Type} (Elasticsearch : es_options (Timeout := Timeout) → Conn).

(** X17: constructing a client fails, with an assertion error, exactly
    when [servers] is false and no connection info is given.  With
    connection info, the index and the connection are those of the info,
    and every other connection argument, [index] and [servers] included, is
    ignored.  In both ways the handle is built with retry on timeout set
    exactly when the number of retries is positive; [auth] is passed on
    only without connection info. *)
Theorem init_uses_info_or_arguments (args : init_args) :
  ((∃ failure, __init__ Elasticsearch args = inl failure) ↔
   truthy (a_servers args) = false ∧ a_using args = None) ∧
  (∀ (given : ElasticClientInfo) (args' : init_args),
     a_using args = Some given → a_using args' = Some given →
     a_disable_indexing args' = a_disable_indexing args →
     a_use_transaction args' = a_use_transaction args →
     __init__ Elasticsearch args' = __init__ Elasticsearch args ∧
     ∃ client, __init__ Elasticsearch args = inr client ∧
               index client = info_index given ∧
               es client = open Elasticsearch given) ∧
  (∀ client, __init__ Elasticsearch args = inr client →
     disable_indexing client = a_disable_indexing args ∧
     use_transaction client = a_use_transaction args ∧
     ∃ opts, es client = Elasticsearch opts ∧
             o_retry_on_timeout opts = bool_decide (0 < o_max_retries opts)%Z ∧
             o_auth opts = match a_using args with
                           | Some _ => None
                           | None => Some (a_auth args)
                           end).
Proof.
  unfold __init__. split; [|split].
  - destruct (a_using args) as [given|]; simpl.
    + rewrite orb_true_r. split; [intros [? ?]; discriminate|intros [_ ?]; discriminate].
    + rewrite orb_false_r. destruct (truthy (a_servers args)); simpl.
      * split; [intros [? ?]; discriminate|intros [? _]; discriminate].
      * split; [auto|eauto].
  - intros given args' -> -> -> ->. simpl. rewrite !orb_true_r.
    split; [reflexivity|]. eexists. split; [reflexivity|]. by split.
  - intros client. destruct (a_using args) as [given|]; simpl.
    + rewrite orb_true_r. intros [= <-]. simpl. split; [reflexivity|].
      split; [reflexivity|]. eexists. split; [reflexivity|]. simpl.
      split; [|reflexivity]. by destruct (Z.ltb_spec 0 (info_timeout_retries given));
        [rewrite bool_decide_eq_true_2|rewrite bool_decide_eq_false_2 by lia].
    + rewrite orb_false_r. destruct (truthy (a_servers args)); [|discriminate].
      intros [= <-]. simpl. split; [reflexivity|].
      split; [reflexivity|]. eexists. split; [reflexivity|]. simpl.
      split; [|reflexivity]. by destruct (Z.ltb_spec 0 (a_timeout_retries args));
        [rewrite bool_decide_eq_true_2|rewrite bool_decide_eq_false_2 by lia].
Qed.

End ConstructionProperties.

(** ** The further properties at concrete inputs *)

Import MoreExamples.

(** Recreating the index of the reference engine, and one that cannot be
    deleted. *)
Lemma ensure_index_recreate_existing_witness :
  answer (indices_exists "idx") empty_index = inr (PBool true) ∧
  new_calls empty_index (ensure_index client_now true PNone empty_index).1
    = [ (0, indices_exists "idx"); (0, indices_delete "idx");
        (0, indices_create "idx" {[ "settings" := PDict CREATE_INDEX_SETTINGS ]}) ] ∧
  (ensure_index client_now true PNone alias_world).2
    = inl (EngineError "cluster_block_exception") ∧
  new_calls alias_world (ensure_index client_now true PNone alias_world).1
    = [ (0, indices_exists "idx"); (0, indices_delete "idx") ].
Proof.
  destruct (ensure_index_recreate_existing client_now PNone empty_index (PBool true)
              eq_refl eq_refl) as (_ & Hok).
  destruct (Hok ack eq_refl) as (_ & Hcalls & _).
  destruct (ensure_index_recreate_existing client_now PNone alias_world (PBool true)
              eq_refl eq_refl) as (Hfail & _).
  destruct (Hfail (EngineError "cluster_block_exception") eq_refl) as (Hrun & Hlog).
  split; [reflexivity|]. split; [exact Hcalls|].
  rewrite Hrun. split; [reflexivity|exact Hlog].
Defined.

(** An absent index with [recreate] set, and an engine that is down. *)
Lemma ensure_index_absent_or_failing_witness :
  answer (indices_exists "idx") no_index = inr (PBool false) ∧
  new_calls no_index (ensure_index client_now true PNone no_index).1
    = [ (0, indices_exists "idx");
        (0, indices_create "idx" {[ "settings" := PDict CREATE_INDEX_SETTINGS ]}) ] ∧
  (ensure_index client_now true PNone down_world).2 = inl (EngineError "ConnectionError") ∧
  new_calls down_world (ensure_index client_now true PNone down_world).1
    = [ (0, indices_exists "idx") ].
Proof.
  destruct (ensure_index_absent_or_failing client_now true PNone no_index)
    as (_ & Habsent).
  destruct (Habsent (PBool false) eq_refl eq_refl) as (Hcalls & _).
  destruct (ensure_index_absent_or_failing client_now true PNone down_world)
    as (Hdown & _).
  destruct (Hdown (EngineError "ConnectionError") eq_refl) as (Hrun & Hlog).
  split; [reflexivity|]. split; [exact Hcalls|].
  rewrite Hrun. split; [reflexivity|exact Hlog].
Defined.

(** Forcing a mapping onto an index that has one. *)
Lemma mapping_pushed_when_forced_witness :
  (get_mappings client_now mapped_index).2 = inr (PDict {[ "title" := text ]}) ∧
  new_calls mapped_index (ensure_mapping client_now class_A true mapped_index).1
    = [ (0, indices_get_mapping "idx");
        (0, indices_put_mapping "idx" {[ "status" := keyword ]}) ].
Proof.
  assert ((get_mappings client_now mapped_index).2 = inr (PDict {[ "title" := text ]}))
    as Hg by (vm_compute; reflexivity).
  destruct (mapping_pushed_when_forced client_now class_A [class_A] mapped_index _ Hg)
    as (Hone & _).
  split; [exact Hg|exact Hone].
Defined.

(** Mappings that cannot be read: no index, and an answer under another
    name. *)
Lemma mapping_not_pushed_when_unreadable_witness :
  (get_mappings client_now no_index).2 = inl NotFoundError ∧
  (ensure_mapping client_now class_A true no_index).2 = inl NotFoundError ∧
  (get_mappings client_now alias_world).2 = inl (KeyError "idx") ∧
  (ensure_all_mappings client_now [class_A] true alias_world).2 = inl (KeyError "idx") ∧
  new_calls alias_world (ensure_all_mappings client_now [class_A] true alias_world).1
    = [ (0, indices_get_mapping "idx") ].
Proof.
  assert ((get_mappings client_now no_index).2 = inl NotFoundError) as H1
    by (vm_compute; reflexivity).
  assert ((get_mappings client_now alias_world).2 = inl (KeyError "idx")) as H2
    by (vm_compute; reflexivity).
  destruct (mapping_not_pushed_when_unreadable client_now class_A [class_A] true
              no_index NotFoundError H1) as (Hone & _).
  destruct (mapping_not_pushed_when_unreadable client_now class_A [class_A] true
              alias_world (KeyError "idx") H2) as (_ & Hall & Hlog & _).
  split; [exact H1|]. split; [rewrite Hone; reflexivity|].
  split; [exact H2|]. rewrite Hall. split; [reflexivity|exact Hlog].
Defined.

(** A delete call that the engine refuses for another reason than absence,
    with [safe] set. *)
Lemma delete_document_other_outcomes_witness :
  answer (es_delete "idx" (PInt 1)) empty_index
    = inl (EngineError "illegal_argument_exception") ∧
  (delete_document client_now (PInt 1) true empty_index).2
    = inl (EngineError "illegal_argument_exception").
Proof.
  destruct (delete_document_other_outcomes client_now (PInt 1) true empty_index
              eq_refl eq_refl) as (_ & Hother & _).
  split; [reflexivity|]. apply Hother; [reflexivity|discriminate].
Defined.

(** Deleting an object with an id, and one without, with [safe] set. *)
Lemma delete_object_uses_id_only_witness :
  document_fields article !! "_id" = Some (PStr "doc1") ∧
  new_calls empty_index (delete_object client_now article true empty_index).1
    = [ (0, es_delete "idx" (PStr "doc1")) ] ∧
  document_fields nameless !! "_id" = None ∧
  (delete_object client_now nameless true empty_index).2 = inl (KeyError "_id").
Proof.
  destruct (delete_object_uses_id_only client_now article true empty_index)
    as (Hid & _).
  destruct (delete_object_uses_id_only client_now nameless true empty_index)
    as (_ & Hnone).
  destruct (Hid (PStr "doc1") eq_refl) as (_ & Hcall).
  destruct (Hnone eq_refl) as (Hk & _).
  split; [reflexivity|]. split; [exact (Hcall eq_refl eq_refl)|].
  split; [reflexivity|exact Hk].
Defined.

(** Indexing a dictionary with a marker twice. *)
Lemma index_document_consumes_marker_witness :
  let w1 := (index_document client_now (PStr "doc1") 0 marked_world).1 in
  (heap marked_world !!! 0) !! "__pipeline__" = Some (PStr "attachment") ∧
  new_calls marked_world w1
    = [ (0, es_index "idx" plain (PStr "doc1") (Some (PStr "attachment"))) ] ∧
  new_calls w1 (index_document client_now (PStr "doc1") 0 w1).1
    = [ (0, es_index "idx" plain (PStr "doc1") None) ].
Proof.
  intros w1.
  assert ((heap marked_world !!! 0) !! "__pipeline__" = Some (PStr "attachment")) as Hp
    by (vm_compute; reflexivity).
  destruct (index_document_consumes_marker client_now (PStr "doc1") 0 marked_world
              (PStr "attachment") eq_refl eq_refl Hp) as (Hfirst & _ & Hsecond).
  split; [exact Hp|]. split.
  - refine (eq_trans Hfirst _). vm_compute. reflexivity.
  - refine (eq_trans Hsecond _). vm_compute. reflexivity.
Defined.

(** Indexing a dictionary without marker. *)
Lemma index_document_plain_witness :
  (heap plain_world !!! 0) !! "__pipeline__" = None ∧
  new_calls plain_world (index_document client_now (PStr "doc1") 0 plain_world).1
    = [ (0, es_index "idx" plain (PStr "doc1") None) ] ∧
  heap (index_document client_now (PStr "doc1") 0 plain_world).1 = heap plain_world.
Proof.
  assert ((heap plain_world !!! 0) !! "__pipeline__" = None) as Hp
    by (vm_compute; reflexivity).
  destruct (index_document_plain client_now (PStr "doc1") 0 plain_world
              eq_refl eq_refl Hp) as (Hw & Hh & _).
  split; [exact Hp|]. split; [|exact Hh].
  rewrite Hw. vm_compute. reflexivity.
Defined.

(** Three objects, the second without id. *)
Lemma index_objects_stops_at_failure_witness :
  let objects := [article] ++ nameless :: [article] in
  (index_objects client_now [article] empty_index).2 = inr tt ∧
  (index_objects client_now objects empty_index).2 = inl (KeyError "_id") ∧
  trace (index_objects client_now objects empty_index).1
    = trace (index_objects client_now [article] empty_index).1.
Proof.
  intros objects.
  assert ((index_objects client_now [article] empty_index).2 = inr tt) as Hok
    by (vm_compute; reflexivity).
  destruct (index_objects_stops_at_failure client_now [article] [article] nameless
              empty_index Hok) as (_ & Hnone & _).
  split; [exact Hok|]. exact (Hnone eq_refl).
Defined.

(** The caller adds a marker after the call and before the commit. *)
Lemma deferred_index_sends_content_at_commit_witness :
  let w1 := (index_document client_tx (PStr "doc1") 0 plain_world).1 in
  let w2 := (store 0 marked w1).1 in
  pending plain_world = [] ∧
  new_calls plain_world (commit w2).1
    = [ (0, es_index "idx" plain (PStr "doc1") (Some (PStr "attachment"))) ].
Proof.
  intros w1 w2.
  destruct (deferred_index_sends_content_at_commit client_tx (PStr "doc1") 0 marked
              plain_world eq_refl eq_refl eq_refl) as (_ & Hsent).
  split; [reflexivity|].
  refine (eq_trans Hsent _). vm_compute. reflexivity.
Defined.

(** Arguments that [get] cannot read, and an answer without source. *)
Lemma get_rejects_unreadable_witness :
  get client_now (GetSeq [PStr "1"]) empty_index = (empty_index, inl ValueError) ∧
  get client_now (GetSeq [PStr "Article"; PStr "1"; PStr "2"]) empty_index
    = (empty_index, inl ValueError) ∧
  answer (es_get "idx" (PStr "1")) alias_world = inr (PDict ∅) ∧
  (get client_now (GetObj (Some (PStr "1"))) alias_world).2 = inl (KeyError "_source").
Proof.
  destruct (get_rejects_unreadable client_now empty_index) as (Hseq & _).
  destruct (get_rejects_unreadable client_now alias_world) as (_ & _ & Hsrc).
  split; [apply Hseq; discriminate|]. split; [apply Hseq; discriminate|].
  split; [reflexivity|]. exact (Hsrc (PStr "1") ∅ eq_refl eq_refl).
Defined.

(** A client with indexing disabled deletes the index like any other. *)
Lemma admin_calls_ignore_flags_and_queue_witness :
  es client_off = es client_now ∧
  index client_off = index client_now ∧
  run_admin client_off DeleteIndex empty_index
    = run_admin client_now DeleteIndex empty_index ∧
  eng (run_admin client_off DeleteIndex empty_index).1 = ∅.
Proof.
  destruct (admin_calls_ignore_flags_and_queue client_now client_off DeleteIndex
              empty_index eq_refl eq_refl) as (Hsame & _).
  split; [reflexivity|]. split; [reflexivity|]. split; [exact Hsame|].
  rewrite Hsame. vm_compute. reflexivity.
Defined.

(** The last class that sets ["status"] gives its value. *)
Lemma merged_mapping_last_contributor_witness :
  class_contribution class_B' !! "status" = Some text ∧
  foldl merge_class ∅ [class_A; class_B'; class_C] !! "status" = Some text ∧
  foldl merge_class ∅ [class_A; class_B'; class_C] !! "body" = None.
Proof.
  destruct (merged_mapping_last_contributor [class_A; class_B'; class_C] "status")
    as (_ & Hlast).
  destruct (merged_mapping_last_contributor [class_A; class_B'; class_C] "body")
    as (Hnone & _).
  assert (class_contribution class_B' !! "status" = Some text) as Hb
    by (vm_compute; reflexivity).
  split; [exact Hb|]. split.
  - apply (Hlast [class_A] [class_C] class_B' text eq_refl Hb).
    repeat constructor.
  - apply Hnone. repeat constructor.
Defined.

(** Two classes with different keys, in both orders. *)
Lemma merged_mapping_order_irrelevant_witness :
  [class_A; class_C] ≡ₚ [class_C; class_A] ∧
  compatible_classes [class_A; class_C] ∧
  foldl merge_class ∅ [class_A; class_C] = foldl merge_class ∅ [class_C; class_A].
Proof.
  assert ([class_A; class_C] ≡ₚ [class_C; class_A]) as Hp by apply Permutation_swap.
  assert (compatible_classes [class_A; class_C]) as Hc.
  { assert (class_contribution class_A = {[ "status" := keyword ]}) as HA
      by (vm_compute; reflexivity).
    assert (class_contribution class_C = {[ "title" := text ]}) as HC
      by (vm_compute; reflexivity).
    intros a b k va vb Ha Hb.
    apply elem_of_cons in Ha as [->|Ha]; [|apply list_elem_of_singleton in Ha as ->];
      (apply elem_of_cons in Hb as [->|Hb]; [|apply list_elem_of_singleton in Hb as ->]);
      rewrite ?HA, ?HC, !lookup_singleton_Some; intros [<- <-] [? <-];
      first [reflexivity|discriminate]. }
  split; [exact Hp|]. split; [exact Hc|].
  exact (merged_mapping_order_irrelevant [class_A; class_C] [class_C; class_A] Hp Hc).
Defined.

(** A registry of the one class A. *)
Lemma ensure_all_mappings_single_class_witness :
  provides_IElasticMapping class_A = true ∧
  mapping_extensions class_A = [] ∧
  ensure_all_mappings client_now [class_A] false empty_index
    = ensure_mapping client_now class_A false empty_index.
Proof.
  split; [reflexivity|]. split; [reflexivity|].
  exact (ensure_all_mappings_single_class client_now class_A false empty_index
           eq_refl eq_refl).
Defined.

(** A registry of classes that add nothing. *)
Lemma ensure_all_mappings_nothing_to_merge_witness :
  has_no_mapping client_now empty_index = true ∧
  new_calls empty_index
    (ensure_all_mappings client_now [class_B; class_D] false empty_index).1
    = [ (0, indices_get_mapping "idx"); (0, indices_put_mapping "idx" ∅) ].
Proof.
  assert (has_no_mapping client_now empty_index = true) as Hn
    by (vm_compute; reflexivity).
  destruct (ensure_all_mappings_nothing_to_merge client_now [class_B; class_D] false
              empty_index) as (_ & Hpush).
  - constructor; [right; reflexivity|]. constructor; [left; reflexivity|constructor].
  - exact Hn.
  - split; [exact Hn|exact Hpush].
Defined.

(** Construction with connection info, whatever the other arguments, and
    without anything to connect to. *)
Lemma init_uses_info_or_arguments_witness :
  __init__ handle_of args_using' = __init__ handle_of args_using ∧
  __init__ handle_of args_using
    = inr {| es := 1; index := "idx"; disable_indexing := false;
             use_transaction := true |} ∧
  (∃ failure, __init__ handle_of args_nothing = inl failure).
Proof.
  destruct (init_uses_info_or_arguments handle_of args_using) as (_ & Hinfo & _).
  destruct (Hinfo info args_using' eq_refl eq_refl eq_refl eq_refl) as (Hsame & _).
  destruct (init_uses_info_or_arguments handle_of args_nothing) as (Hfail & _).
  split; [exact Hsame|]. split; [reflexivity|].
  apply Hfail. split; reflexivity.
Defined.
